(** * Mnemosyne memory engine: a shallow embedding of the store, curator,
    oracle and engine (src/mnemosyne) and the properties of its spec. *)

From Stdlib Require Import String Ascii List ZArith Floats Bool Lia Permutation.
Import ListNotations.
Local Open Scope nat_scope.

(* ------------------------------------------------------------------ *)
(** ** Python floats *)

(** The code computes heats, similarity scores and relevance scores with
    Python floats.  The definitions are generic over the arithmetic; the
    [float] instance (Rocq's primitive IEEE binary64 numbers, the same
    numbers and the same rounding as CPython) is the one the code runs. *)
Class Num (H : Type) := {
  num_of_Z : Z -> H;              (** [float(n)] for a Python int *)
  num_add : H -> H -> H;
  num_sub : H -> H -> H;
  num_mul : H -> H -> H;
  num_div : H -> H -> H;
  num_ltb : H -> H -> bool;       (** [a < b] *)
  num_leb : H -> H -> bool        (** [a <= b] *)
}.

Definition float_of_Z (z : Z) : float :=
  if (z <? 0)%Z then PrimFloat.opp (PrimFloat.of_uint63 (Uint63.of_Z (- z)))
  else PrimFloat.of_uint63 (Uint63.of_Z z).

#[export] Instance Num_float : Num float := {
  num_of_Z := float_of_Z;
  num_add := PrimFloat.add;
  num_sub := PrimFloat.sub;
  num_mul := PrimFloat.mul;
  num_div := PrimFloat.div;
  num_ltb := PrimFloat.ltb;
  num_leb := PrimFloat.leb
}.

Section PyFloat.
Context {H : Type} `{Num H}.

(** A decimal literal [n / d] written in the source: the quotient of two
    exact integers rounded once, which is the literal's nearest double. *)
Definition lit (n d : Z) : H := num_div (num_of_Z n) (num_of_Z d).

(** Python's [min(a, b)] keeps [a] unless [b < a]; [max(a, b)] keeps [a]
    unless [b > a]. *)
Definition py_min (a b : H) : H := if num_ltb b a then b else a.
Definition py_max (a b : H) : H := if num_ltb a b then b else a.

End PyFloat.

(* ------------------------------------------------------------------ *)
(** ** Python strings (ASCII) *)

Definition is_space (c : ascii) : bool :=
  let n := nat_of_ascii c in
  ((9 <=? n) && (n <=? 13)) || ((28 <=? n) && (n <=? 32)).

Definition is_digit (c : ascii) : bool :=
  let n := nat_of_ascii c in (48 <=? n) && (n <=? 57).

Definition lower_char (c : ascii) : ascii :=
  let n := nat_of_ascii c in
  if (65 <=? n) && (n <=? 90) then ascii_of_nat (n + 32) else c.

Definition upper_char (c : ascii) : ascii :=
  let n := nat_of_ascii c in
  if (97 <=? n) && (n <=? 122) then ascii_of_nat (n - 32) else c.

(** [s.lower()], [s.upper()] *)
Definition py_lower (s : string) : string :=
  string_of_list_ascii (map lower_char (list_ascii_of_string s)).
Definition py_upper (s : string) : string :=
  string_of_list_ascii (map upper_char (list_ascii_of_string s)).

Fixpoint drop_spaces (l : list ascii) : list ascii :=
  match l with
  | c :: l' => if is_space c then drop_spaces l' else l
  | [] => []
  end.

(** [s.strip()] *)
Definition py_strip (s : string) : string :=
  string_of_list_ascii
    (rev (drop_spaces (rev (drop_spaces (list_ascii_of_string s))))).

(** Maximal runs of characters satisfying [p], left to right. *)
Fixpoint runs (p : ascii -> bool) (cur : list ascii) (l : list ascii)
  : list (list ascii) :=
  match l with
  | [] => match cur with [] => [] | _ => [rev cur] end
  | c :: l' =>
      if p c then runs p (c :: cur) l'
      else match cur with
           | [] => runs p [] l'
           | _ => rev cur :: runs p [] l'
           end
  end.

(** [s.split()]: the runs of non-whitespace characters. *)
Definition py_split (s : string) : list string :=
  map string_of_list_ascii
    (runs (fun c => negb (is_space c)) [] (list_ascii_of_string s)).

(** [re.findall(r'\d+', s)] *)
Definition findall_digits (s : string) : list string :=
  map string_of_list_ascii (runs is_digit [] (list_ascii_of_string s)).

(** Python [set] operations on lists of strings. *)
Definition py_set (l : list string) : list string := nodup string_dec l.
Definition mem_str (x : string) (l : list string) : bool :=
  existsb (String.eqb x) l.
Definition set_eqb (a b : list string) : bool :=
  forallb (fun x => mem_str x b) a && forallb (fun x => mem_str x a) b.
Definition inter_len (a b : list string) : nat :=
  length (filter (fun x => mem_str x b) (py_set a)).
Definition union_len (a b : list string) : nat :=
  length (py_set (a ++ b)).

(* ------------------------------------------------------------------ *)
(** ** Data model (models.py) *)

Inductive memory_type := PREFERENCE | FACT | ENTITY | CONSTRAINT | COMMITMENT.
Inductive memory_status := ACTIVE | DECAYING | EVICTED.
Inductive curator_op := ADD | UPDATE | DELETE | NOOP.

Definition memory_type_value (t : memory_type) : string :=
  match t with
  | PREFERENCE => "preference" | FACT => "fact" | ENTITY => "entity"
  | CONSTRAINT => "constraint" | COMMITMENT => "commitment"
  end.

Definition memory_type_eqb (a b : memory_type) : bool :=
  String.eqb (memory_type_value a) (memory_type_value b).

Definition memory_status_eqb (a b : memory_status) : bool :=
  match a, b with
  | ACTIVE, ACTIVE | DECAYING, DECAYING | EVICTED, EVICTED => true
  | _, _ => false
  end.

Definition curator_op_eqb (a b : curator_op) : bool :=
  match a, b with
  | ADD, ADD | UPDATE, UPDATE | DELETE, DELETE | NOOP, NOOP => true
  | _, _ => false
  end.

(** [MemoryObject]; timestamps are floats like the heat. *)
Record memory_object {H : Type} := MemoryObject {
  memory_id : string;
  type : memory_type;
  key : string;
  value : string;
  source_turn : Z;
  last_recalled_turn : Z;
  heat : H;
  confidence : H;
  status : memory_status;
  created_at : H;
  updated_at : H;
  embed_text : string
}.
Arguments memory_object : clear implicits.

Section Records.
Context {H : Type}.

(** Assignments to one field of a [MemoryObject]. *)
Definition set_value (m : memory_object H) (v : string) : memory_object H :=
  MemoryObject H (memory_id m) (type m) (key m) v (source_turn m)
    (last_recalled_turn m) (heat m) (confidence m) (status m) (created_at m)
    (updated_at m) (embed_text m).
Definition set_updated_at (m : memory_object H) (t : H) : memory_object H :=
  MemoryObject H (memory_id m) (type m) (key m) (value m) (source_turn m)
    (last_recalled_turn m) (heat m) (confidence m) (status m) (created_at m)
    t (embed_text m).
Definition set_last_recalled_turn (m : memory_object H) (t : Z) : memory_object H :=
  MemoryObject H (memory_id m) (type m) (key m) (value m) (source_turn m)
    t (heat m) (confidence m) (status m) (created_at m)
    (updated_at m) (embed_text m).
Definition set_embed_text (m : memory_object H) (e : string) : memory_object H :=
  MemoryObject H (memory_id m) (type m) (key m) (value m) (source_turn m)
    (last_recalled_turn m) (heat m) (confidence m) (status m) (created_at m)
    (updated_at m) e.
Definition set_heat (m : memory_object H) (h : H) : memory_object H :=
  MemoryObject H (memory_id m) (type m) (key m) (value m) (source_turn m)
    (last_recalled_turn m) h (confidence m) (status m) (created_at m)
    (updated_at m) (embed_text m).
Definition set_status (m : memory_object H) (st : memory_status) : memory_object H :=
  MemoryObject H (memory_id m) (type m) (key m) (value m) (source_turn m)
    (last_recalled_turn m) (heat m) (confidence m) st (created_at m)
    (updated_at m) (embed_text m).

(** [to_prompt_fragment]: ["[TYPE] key: value"] *)
Definition to_prompt_fragment (m : memory_object H) : string :=
  "[" ++ py_upper (memory_type_value (type m)) ++ "] " ++ key m ++ ": " ++ value m.

End Records.

(** [CuratorDecision]; its [reason] is a log string that no operation reads
    and is left out. *)
Record curator_decision {H : Type} := CuratorDecision {
  operation : curator_op;
  candidate : memory_object H;
  target_id : option string
}.
Arguments curator_decision : clear implicits.

(* ------------------------------------------------------------------ *)
(** ** Tiers (memory_store.py) *)

(** A Python dict as an association list in insertion order: assigning an
    existing key keeps its position, a new key goes last. *)
Section Dict.
Context {V : Type}.

Fixpoint dict_get (k : string) (d : list (string * V)) : option V :=
  match d with
  | [] => None
  | (k', v) :: d' => if String.eqb k k' then Some v else dict_get k d'
  end.

Fixpoint dict_set (k : string) (v : V) (d : list (string * V)) : list (string * V) :=
  match d with
  | [] => [(k, v)]
  | (k', v') :: d' => if String.eqb k k' then (k, v) :: d' else (k', v') :: dict_set k v d'
  end.

Fixpoint dict_pop (k : string) (d : list (string * V)) : list (string * V) :=
  match d with
  | [] => []
  | (k', v') :: d' => if String.eqb k k' then d' else (k', v') :: dict_pop k d'
  end.

End Dict.

Section Tiers.
Context {H : Type} `{Num H}.

(** HotTier: [deque(maxlen=40)] with [appendleft]. The Python deque holds
    references to the same objects as the warm cache, so the in-place
    changes of [update], [mark_recalled] and [apply_decay] show through it;
    this list keeps the values as they were when added. Nothing in the
    source reads the hot tier back ([get_all] and [find_by_id] have no
    callers), so no result the code computes depends on the difference. *)
Definition HOT_SIZE : nat := 40.
Definition hot_add (m : memory_object H) (hot : list (memory_object H))
  : list (memory_object H) :=
  firstn HOT_SIZE (m :: hot).

(** WarmTier: the [_memories] cache, [memory_id -> MemoryObject]; the Chroma
    collection holds [(memory_id, embed_text)] for the same ids. *)
Definition warm_tier := list (string * memory_object H).

Definition warm_upsert (m : memory_object H) (w : warm_tier) : warm_tier :=
  dict_set (memory_id m) m w.
Definition warm_remove (id : string) (w : warm_tier) : warm_tier := dict_pop id w.
Definition warm_get_all (w : warm_tier) : list (memory_object H) := map snd w.
Definition warm_get_by_id (id : string) (w : warm_tier) := dict_get id w.
Definition warm_get_by_type (t : memory_type) (w : warm_tier) : list (memory_object H) :=
  filter (fun m => memory_type_eqb (type m) t) (warm_get_all w).
Definition warm_documents (w : warm_tier) : list (string * string) :=
  map (fun '(id, m) => (id, embed_text m)) w.

(** ColdTier: the SQLite table, rows in insertion order.  [INSERT ... ON
    CONFLICT(memory_id) DO UPDATE] rewrites only value, last_recalled_turn,
    heat, confidence, status and updated_at of an existing row. *)
Definition cold_tier := list (memory_object H).

Definition cold_merge (row m : memory_object H) : memory_object H :=
  MemoryObject H (memory_id row) (type row) (key row) (value m) (source_turn row)
    (last_recalled_turn m) (heat m) (confidence m) (status m) (created_at row)
    (updated_at m) (embed_text row).

Fixpoint cold_upsert (m : memory_object H) (c : cold_tier) : cold_tier :=
  match c with
  | [] => [m]
  | row :: c' =>
      if String.eqb (memory_id m) (memory_id row) then cold_merge row m :: c'
      else row :: cold_upsert m c'
  end.

Definition cold_delete (id : string) (c : cold_tier) : cold_tier :=
  filter (fun row => negb (String.eqb id (memory_id row))) c.

Definition cold_get_by_id (id : string) (c : cold_tier) : option (memory_object H) :=
  find (fun row => String.eqb id (memory_id row)) c.

(** [WHERE status IN ('active', 'decaying')] *)
Definition cold_get_all_active (c : cold_tier) : list (memory_object H) :=
  filter (fun row => negb (memory_status_eqb (status row) EVICTED)) c.

End Tiers.
Arguments warm_tier H : clear implicits.
Arguments cold_tier H : clear implicits.

(* ------------------------------------------------------------------ *)
(** ** The unified store (MemoryStore) *)

Record memory_store {H : Type} := MemoryStore {
  db_path : string;
  hot : list (memory_object H);
  warm : warm_tier H;
  cold : cold_tier H
}.
Arguments memory_store : clear implicits.

(** [sorted(xs, key=f, reverse=True)]: a stable sort, descending in [f]. *)
Section Sort.
Context {H A : Type} `{Num H} (f : A -> H).

Fixpoint insert_desc (x : A) (l : list A) : list A :=
  match l with
  | [] => [x]
  | y :: l' => if num_ltb (f y) (f x) then x :: l else y :: insert_desc x l'
  end.

Definition sort_desc (l : list A) : list A :=
  fold_left (fun acc x => insert_desc x acc) l [].

End Sort.

Section Store.
Context {H : Type} `{Num H}.

(** The Chroma collection's nearest-neighbour query: given the collection
    [(id, document)], a query text and [n_results], the ids found with their
    cosine distances, nearest first.  It is the embedding model's and the
    HNSW index's, outside the repository, so it is a parameter. *)
Variable chroma_query : list (string * string) -> string -> nat -> list (string * H).

Definition HEAT_DECAY_PER_TURN : H := lit 4 100.
Definition HEAT_RECALL_BOOST : H := lit 25 100.
Definition HEAT_EVICT_THRESHOLD : H := lit 8 100.
Definition DECAYING_BELOW : H := lit 3 10.

(** [WarmTier.search] *)
Definition warm_search (w : warm_tier H) (query : string) (top_k : nat)
  (threshold : H) : list (memory_object H * H) :=
  match w with
  | [] => []
  | _ =>
      let k := Nat.min top_k (length w) in
      let results := chroma_query (warm_documents w) query k in
      let hits :=
        fold_left
          (fun hits '(mem_id, distance) =>
             match warm_get_by_id mem_id w with
             | None => hits
             | Some mem =>
                 let raw_score := num_div (num_of_Z 1) (num_add (num_of_Z 1) distance) in
                 let adjusted_score :=
                   num_mul raw_score (num_add (lit 7 10) (num_mul (lit 3 10) (heat mem))) in
                 if num_leb threshold adjusted_score
                 then hits ++ [(mem, adjusted_score)] else hits
             end)
          results [] in
      sort_desc snd hits
  end.

Definition store_add (m : memory_object H) (s : memory_store H) : memory_store H :=
  MemoryStore H (db_path s) (hot_add m (hot s)) (warm_upsert m (warm s))
    (cold_upsert m (cold s)).

(** [MemoryStore.update]; [now] is the value of [time.time()]. *)
Definition store_update (memory_id0 new_value : string) (turn : Z) (now : H)
  (s : memory_store H) : memory_store H :=
  let found :=
    match warm_get_by_id memory_id0 (warm s) with
    | Some m => Some m
    | None => cold_get_by_id memory_id0 (cold s)
    end in
  match found with
  | None => s
  | Some mem =>
      let mem1 := set_value mem new_value in
      let mem2 := set_updated_at mem1 now in
      let mem3 := set_last_recalled_turn mem2 turn in
      let mem4 := set_embed_text mem3 (key mem3 ++ ": " ++ new_value) in
      MemoryStore H (db_path s) (hot s) (warm_upsert mem4 (warm s))
        (cold_upsert mem4 (cold s))
  end.

Definition store_delete (memory_id0 : string) (s : memory_store H) : memory_store H :=
  MemoryStore H (db_path s) (hot s) (warm_remove memory_id0 (warm s))
    (cold_delete memory_id0 (cold s)).

Definition mark_recalled (memory_id0 : string) (turn : Z) (s : memory_store H)
  : memory_store H :=
  match warm_get_by_id memory_id0 (warm s) with
  | None => s
  | Some mem =>
      let mem1 := set_heat mem (py_min (num_of_Z 1) (num_add (heat mem) HEAT_RECALL_BOOST)) in
      let mem2 := set_last_recalled_turn mem1 turn in
      let mem3 := set_status mem2 ACTIVE in
      MemoryStore H (db_path s) (hot s) (warm_upsert mem3 (warm s))
        (cold_upsert mem3 (cold s))
  end.

Definition semantic_search (s : memory_store H) (query : string) (top_k : nat)
  (threshold : H) : list (memory_object H * H) :=
  warm_search (warm s) query top_k threshold.

Definition get_by_type (s : memory_store H) (t : memory_type) : list (memory_object H) :=
  warm_get_by_type t (warm s).

Definition get_all_active (s : memory_store H) : list (memory_object H) :=
  filter (fun m => negb (memory_status_eqb (status m) EVICTED)) (warm_get_all (warm s)).

(** [max(0.0, mem.heat - self.HEAT_DECAY_PER_TURN)] *)
Definition decayed_heat (h : H) : H := py_max (num_of_Z 0) (num_sub h HEAT_DECAY_PER_TURN).

(** One iteration of the loop of [apply_decay]. *)
Definition decay_one (current_turn : Z) (acc : memory_store H * list string)
  (mem : memory_object H) : memory_store H * list string :=
  let (s, evicted) := acc in
  if (last_recalled_turn mem <? current_turn)%Z then
    let mem1 := set_heat mem (decayed_heat (heat mem)) in
    if num_ltb (heat mem1) HEAT_EVICT_THRESHOLD then
      let s1 := MemoryStore H (db_path s) (hot s) (warm_remove (memory_id mem1) (warm s))
                  (cold_delete (memory_id mem1) (cold s)) in
      (s1, evicted ++ [memory_id mem1])
    else if num_ltb (heat mem1) DECAYING_BELOW then
      let mem2 := set_status mem1 DECAYING in
      (MemoryStore H (db_path s) (hot s) (warm_upsert mem2 (warm s))
         (cold_upsert mem2 (cold s)), evicted)
    else
      let mem2 := set_status mem1 ACTIVE in
      (MemoryStore H (db_path s) (hot s) (warm_upsert mem2 (warm s))
         (cold_upsert mem2 (cold s)), evicted)
  else (s, evicted).

(** [apply_decay] iterates over a copy of the warm tier taken at the start. *)
Definition apply_decay (current_turn : Z) (s : memory_store H)
  : memory_store H * list string :=
  fold_left (decay_one current_turn) (warm_get_all (warm s)) (s, []).

(** [MemoryStore.__init__]: [disk] maps a database file path to the rows it
    holds; [":memory:"] opens a fresh empty database.  The warm cache starts
    empty and is filled from the cold tier's active rows. *)
Definition store_init (disk : list (string * cold_tier H)) (path : string)
  : memory_store H :=
  let c := if String.eqb path ":memory:" then []
           else match dict_get path disk with Some rows => rows | None => [] end in
  MemoryStore H path [] (fold_left (fun w m => warm_upsert m w) (cold_get_all_active c) [])
    c.

End Store.

(* ------------------------------------------------------------------ *)
(** ** Curator (curator.py) *)

Definition NON_CONTRADICTION_PAIRS : list (string * string) :=
  [("vegetarian", "vegan"); ("vegan", "plant-based"); ("vegetarian", "plant-based")]%string.

(** [_values_are_same] *)
Definition values_are_same (v1 v2 : string) : bool :=
  String.eqb (py_strip (py_lower v1)) (py_strip (py_lower v2)).

Section Curator.
Context {H : Type} `{Num H}.
Variable chroma_query : list (string * string) -> string -> nat -> list (string * H).

Definition SIMILARITY_FOR_CONFLICT : H := lit 55 100.
Definition SIMILARITY_FOR_DUPLICATE : H := lit 75 100.

(** [_is_contradiction] *)
Definition is_contradiction (new_val old_val : string) : bool :=
  let new_lower := py_strip (py_lower new_val) in
  let old_lower := py_strip (py_lower old_val) in
  (* pair in NON_CONTRADICTION_PAIRS, a comparison of Python sets *)
  if existsb (fun '(p, q) => set_eqb [new_lower; old_lower] [p; q]) NON_CONTRADICTION_PAIRS
  then false
  else
    let new_nums := findall_digits new_lower in
    let old_nums := findall_digits old_lower in
    if negb (Nat.eqb (length new_nums) 0) && negb (Nat.eqb (length old_nums) 0)
       && negb (set_eqb new_nums old_nums)
    then true
    else
      let new_words := py_split new_lower in
      let old_words := py_split old_lower in
      let overlap := inter_len new_words old_words in
      let total := union_len new_words old_words in
      if (0 <? total)%nat
         && num_ltb (num_div (num_of_Z (Z.of_nat overlap)) (num_of_Z (Z.of_nat total))) (lit 2 10)
      then true
      else false.

(** The [active_by_key] dict, keyed by [(key, type)]. *)
Definition lookup_table := list ((string * memory_type) * memory_object H).

Definition key_eqb (a b : string * memory_type) : bool :=
  String.eqb (fst a) (fst b) && memory_type_eqb (snd a) (snd b).

Fixpoint table_get (k : string * memory_type) (t : lookup_table) : option (memory_object H) :=
  match t with
  | [] => None
  | (k', v) :: t' => if key_eqb k k' then Some v else table_get k t'
  end.

Fixpoint table_set (k : string * memory_type) (v : memory_object H) (t : lookup_table)
  : lookup_table :=
  match t with
  | [] => [(k, v)]
  | (k', v') :: t' => if key_eqb k k' then (k, v) :: t' else (k', v') :: table_set k v t'
  end.

(** The loop of Check 2 over the semantic hits, in score order. *)
Fixpoint scan_similar (cand : memory_object H) (similar : list (memory_object H * H))
  : curator_decision H :=
  match similar with
  | [] => CuratorDecision H ADD cand None
  | (existing_mem, score) :: rest =>
      if num_leb SIMILARITY_FOR_DUPLICATE score && values_are_same (value cand) (value existing_mem)
      then CuratorDecision H NOOP cand (Some (memory_id existing_mem))
      else if num_leb SIMILARITY_FOR_CONFLICT score
              && is_contradiction (value cand) (value existing_mem)
      then CuratorDecision H DELETE cand (Some (memory_id existing_mem))
      else scan_similar cand rest
  end.

(** [_decide]; a [MemoryObject] found in the dict is always truthy. *)
Definition decide (s : memory_store H) (cand : memory_object H) (active_by_key : lookup_table)
  : curator_decision H :=
  match table_get (key cand, type cand) active_by_key with
  | Some existing_same_key =>
      if values_are_same (value cand) (value existing_same_key)
      then CuratorDecision H NOOP cand (Some (memory_id existing_same_key))
      else CuratorDecision H UPDATE cand (Some (memory_id existing_same_key))
  | None =>
      let similar := semantic_search chroma_query s (embed_text cand) 3 SIMILARITY_FOR_CONFLICT in
      scan_similar cand similar
  end.

(** Truthiness of [decision.target_id] (a string or [None]). *)
Definition target_truthy (t : option string) : bool :=
  match t with Some id => negb (String.eqb id "") | None => false end.

(** [_execute]; [now] is the value of [time.time()] read by [store.update]. *)
Definition execute (d : curator_decision H) (turn : Z) (now : H) (s : memory_store H)
  : memory_store H :=
  let mem := candidate d in
  match operation d with
  | ADD => store_add mem s
  | UPDATE =>
      match target_id d with
      | Some id => if target_truthy (Some id) then store_update id (value mem) turn now s
                   else store_add mem s
      | None => store_add mem s
      end
  | DELETE =>
      let s1 := match target_id d with
                | Some id => if target_truthy (Some id) then store_delete id s else s
                | None => s
                end in
      store_add mem s1
  | NOOP => s
  end.

(** The lookup-table maintenance after each decision in [process]. *)
Definition refresh_table (d : curator_decision H) (t : lookup_table) : lookup_table :=
  let c := candidate d in
  match operation d with
  | ADD => table_set (key c, type c) c t
  | UPDATE =>
      if target_truthy (target_id d) then
        match table_get (key c, type c) t with
        | Some existing => table_set (key c, type c) (set_value existing (value c)) t
        | None => t
        end
      else t
  | _ => t
  end.

Definition build_table (s : memory_store H) : lookup_table :=
  fold_left (fun t m => table_set (key m, type m) m t) (get_all_active s) [].

(** The candidate loop of [process], from a given table and store. *)
Fixpoint process_loop (cands : list (memory_object H)) (turn : Z) (now : H)
  (t : lookup_table) (s : memory_store H) : list (curator_decision H) * memory_store H :=
  match cands with
  | [] => ([], s)
  | c :: rest =>
      let d := decide s c t in
      let s1 := execute d turn now s in
      let t1 := refresh_table d t in
      let (ds, s2) := process_loop rest turn now t1 s1 in
      (d :: ds, s2)
  end.

(** [Curator.process] *)
Definition process (cands : list (memory_object H)) (turn : Z) (now : H) (s : memory_store H)
  : list (curator_decision H) * memory_store H :=
  process_loop cands turn now (build_table s) s.

(** [Curator.run_decay] *)
Definition run_decay (turn : Z) (s : memory_store H) : memory_store H * list string :=
  apply_decay turn s.

End Curator.

(* ------------------------------------------------------------------ *)
(** ** Oracle (oracle.py) *)

Definition MAX_MEMORY_TOKENS : nat := 300.
Definition ALWAYS_INJECT_TYPES : list memory_type := [CONSTRAINT; COMMITMENT].
Definition TOP_K_SEMANTIC : nat := 8.

Definition newline : string := String (ascii_of_nat 10) EmptyString.

Fixpoint join_lines (ls : list string) : string :=
  match ls with
  | [] => ""
  | [l] => l
  | l :: ls' => l ++ newline ++ join_lines ls'
  end.

Record retrieval_result {H : Type} := RetrievalResult {
  memories : list (memory_object H);
  total_tokens : nat;
  semantic_hits : nat;
  structural_hits : nat;
  prompt_block : string
}.
Arguments retrieval_result : clear implicits.

Section Oracle.
Context {H : Type} `{Num H}.
Variable chroma_query : list (string * string) -> string -> nat -> list (string * H).

Definition RELEVANCE_THRESHOLD : H := lit 50 100.

(** The [selected] dict (memory_id -> MemoryObject) with a hit counter:
    a record is entered only when its id is not there yet. *)
Definition select (acc : list (string * memory_object H) * nat) (mem : memory_object H)
  : list (string * memory_object H) * nat :=
  let (selected, hits) := acc in
  match dict_get (memory_id mem) selected with
  | Some _ => (selected, hits)
  | None => (dict_set (memory_id mem) mem selected, S hits)
  end.

(** Step 1: semantic hits. *)
Definition semantic_step (s : memory_store H) (query : string)
  : list (string * memory_object H) * nat :=
  fold_left select (map fst (semantic_search chroma_query s query TOP_K_SEMANTIC RELEVANCE_THRESHOLD))
    ([], 0%nat).

(** Step 2: every non-evicted record of an always-inject type. *)
Definition structural_step (s : memory_store H) (selected : list (string * memory_object H))
  : list (string * memory_object H) * nat :=
  fold_left
    (fun acc mem_type =>
       fold_left
         (fun acc mem =>
            if negb (memory_status_eqb (status mem) EVICTED) then select acc mem else acc)
         (get_by_type s mem_type) acc)
    ALWAYS_INJECT_TYPES (selected, 0%nat).

(** Step 3: [heat * 0.6 + recency * 0.4]. *)
Definition relevance_score (turn_number : Z) (mem : memory_object H) : H :=
  let recency :=
    num_div (num_of_Z 1)
      (num_add (num_of_Z 1)
         (num_mul (num_of_Z (turn_number - last_recalled_turn mem)) (lit 1 100))) in
  num_add (num_mul (heat mem) (lit 6 10)) (num_mul recency (lit 4 10)).

(** [len(fragment.split()) + 3] *)
Definition estimated_tokens (mem : memory_object H) : nat :=
  length (py_split (to_prompt_fragment mem)) + 3.

(** Step 4: the token budget loop, with [break] at the first record that
    does not fit. *)
Fixpoint apply_budget (ms : list (memory_object H)) (total : nat)
  : list (memory_object H) * nat :=
  match ms with
  | [] => ([], total)
  | mem :: rest =>
      if MAX_MEMORY_TOKENS <? total + estimated_tokens mem then ([], total)
      else let (fs, t) := apply_budget rest (total + estimated_tokens mem) in (mem :: fs, t)
  end.

(** [_build_prompt_block]: the records of each type, in their order, under
    a header, types in the fixed priority order. *)
Definition build_prompt_block (ms : list (memory_object H)) : string :=
  match ms with
  | [] => ""
  | _ =>
      let priority_order := [CONSTRAINT; COMMITMENT; PREFERENCE; FACT; ENTITY] in
      let group t := filter (fun m => memory_type_eqb (type m) t) ms in
      join_lines
        (["<memory_context>"%string]
         ++ flat_map
              (fun t =>
                 match group t with
                 | [] => []
                 | g => ("  [" ++ py_upper (memory_type_value t) ++ "S]")%string
                        :: map (fun m => ("    " ++ key m ++ ": " ++ value m)%string) g
                 end)
              priority_order
         ++ ["</memory_context>"%string])%list
  end.

(** The merged and ranked candidates of steps 1-3. *)
Definition ranked_candidates (s : memory_store H) (query : string) (turn_number : Z)
  : list (memory_object H) :=
  let (sel1, _) := semantic_step s query in
  let (sel2, _) := structural_step s sel1 in
  sort_desc (relevance_score turn_number) (map snd sel2).

(** [Oracle.retrieve]: the result and the store after the recall boosts. *)
Definition retrieve (s : memory_store H) (query : string) (turn_number : Z)
  : retrieval_result H * memory_store H :=
  let (sel1, sem_hits) := semantic_step s query in
  let (sel2, struct_hits) := structural_step s sel1 in
  let sorted_memories := sort_desc (relevance_score turn_number) (map snd sel2) in
  let (final_memories, total) := apply_budget sorted_memories 0%nat in
  let s' := fold_left (fun st mem => mark_recalled (memory_id mem) turn_number st)
              final_memories s in
  (RetrievalResult H final_memories total sem_hits struct_hits
     (build_prompt_block final_memories), s').

End Oracle.

(** The [lines] list that [_build_prompt_block] joins, for a nonempty
    list of memories. *)
Definition prompt_block_lines {H : Type} (ms : list (memory_object H)) : list string :=
  let priority_order := [CONSTRAINT; COMMITMENT; PREFERENCE; FACT; ENTITY] in
  let group t := filter (fun m => memory_type_eqb (type m) t) ms in
  (["<memory_context>"%string]
   ++ flat_map
        (fun t =>
           match group t with
           | [] => []
           | g => ("  [" ++ py_upper (memory_type_value t) ++ "S]")%string
                  :: map (fun m => ("    " ++ key m ++ ": " ++ value m)%string) g
           end)
        priority_order
   ++ ["</memory_context>"%string])%list.

(** Python's [s.split("\n")]: the lines of a string. *)
Fixpoint split_newline (s : string) : list string :=
  match s with
  | EmptyString => [""%string]
  | String c rest =>
      if Ascii.eqb c (ascii_of_nat 10) then ""%string :: split_newline rest
      else match split_newline rest with
           | [] => [String c ""]
           | l :: ls => String c l :: ls
           end
  end.

Fixpoint has_newline (s : string) : bool :=
  match s with
  | EmptyString => false
  | String c rest => Ascii.eqb c (ascii_of_nat 10) || has_newline rest
  end.

(** The line [_build_prompt_block] writes for a memory, and the lines that
    start like it, [l.startswith("    ")] (the type headers start with two
    spaces and a bracket). *)
Definition memory_line {H : Type} (m : memory_object H) : string :=
  ("    " ++ key m ++ ": " ++ value m)%string.

Fixpoint starts_with (p s : string) : bool :=
  match p, s with
  | EmptyString, _ => true
  | String a p', String b s' => Ascii.eqb a b && starts_with p' s'
  | String _ _, EmptyString => false
  end.

Definition is_memory_line (l : string) : bool := starts_with "    " l.

(** The memories in the order [_build_prompt_block] writes them: the groups
    of [priority_order], each in input order. *)
Definition by_priority {H : Type} (ms : list (memory_object H)) : list (memory_object H) :=
  flat_map (fun t => filter (fun m => memory_type_eqb (type m) t) ms)
    [CONSTRAINT; COMMITMENT; PREFERENCE; FACT; ENTITY].

(* ------------------------------------------------------------------ *)
(** ** Engine (engine.py) *)

(** [HISTORY_WINDOW]: 20 messages, 10 full turns. *)
Definition HISTORY_WINDOW : nat := 20.

(** A history message [{"role": ..., "content": ...}]. *)
Record message := Message { role : string; content : string }.

(** [lst[-n:]] *)
Definition last_n {A : Type} (n : nat) (l : list A) : list A :=
  skipn (length l - n) l.

(** The history update of [chat]: append the user message and the response,
    then keep the last [HISTORY_WINDOW] entries. *)
Definition update_history (history : list message) (user_message response : string)
  : list message :=
  let h := history ++ [Message "user" user_message; Message "assistant" response] in
  last_n HISTORY_WINDOW h.

(** The history after a sequence of turns [(user_message, response)] from
    the empty history the engine starts (and restarts) with. *)
Definition history_after (turns : list (string * string)) : list message :=
  fold_left (fun h '(q, r) => update_history h q r) turns [].

(** The Sentinel's only state is its confidence threshold. *)
Record sentinel {H : Type} := Sentinel { threshold : H }.
Arguments sentinel : clear implicits.

(** The engine's state.  The Oracle and the Curator hold nothing but a
    reference to the engine's store, so they are the functions [retrieve]
    and [process] applied to [e_store]. *)
Record engine {H : Type} := Engine {
  e_db_path : string;
  e_store : memory_store H;
  e_sentinel : sentinel H;
  e_turn_number : Z;
  e_history : list message
}.
Arguments engine : clear implicits.

Section EngineOps.
Context {H : Type}.

(** [MnemosyneEngine.__init__] over the database files [disk]. *)
Definition engine_init (disk : list (string * cold_tier H)) (path : string)
  (confidence_threshold : H) : engine H :=
  Engine H path (store_init disk path) (Sentinel H confidence_threshold) 0 [].

(** [MnemosyneEngine.reset] *)
Definition engine_reset (disk : list (string * cold_tier H)) (e : engine H) : engine H :=
  Engine H (e_db_path e) (store_init disk (e_db_path e))
    (Sentinel H (threshold (e_sentinel e))) 0 [].

End EngineOps.

(* ------------------------------------------------------------------ *)
(** ** Definitions used by the properties *)

(** The messages one turn appends to the history. *)
Definition turn_messages (turns : list (string * string)) : list message :=
  flat_map (fun '(q, r) => [Message "user" q; Message "assistant" r]) turns.

Section SpecDefs.
Context {H : Type} `{Num H}.

(** The summed token estimates of a list of records. *)
Definition tokens_of (ms : list (memory_object H)) : nat :=
  fold_right (fun m acc => (estimated_tokens m + acc)%nat) 0%nat ms.

(** A record as the store's invariant wants it: heat in [0, 1], not
    evicted, and its status the one its heat determines. *)
Definition record_ok (m : memory_object H) : bool :=
  num_leb (num_of_Z 0) (heat m) && num_leb (heat m) (num_of_Z 1)
  && match status m with
     | ACTIVE => num_leb DECAYING_BELOW (heat m)
     | DECAYING => num_leb HEAT_EVICT_THRESHOLD (heat m) && num_ltb (heat m) DECAYING_BELOW
     | EVICTED => false
     end.

Definition store_ok (s : memory_store H) : bool :=
  forallb record_ok (warm_get_all (warm s)) && forallb record_ok (cold s).

(** The warm cache as a Python dict keyed by [memory_id]: keys distinct,
    each record under its own id. *)
Definition warm_wf (w : warm_tier H) : Prop :=
  NoDup (map fst w) /\ Forall (fun kv => fst kv = memory_id (snd kv)) w.

(** [n] decay sweeps at turns [turn], [turn + 1], ...; the evicted ids of each. *)
Fixpoint decay_sweeps (s : memory_store H) (turn : Z) (n : nat)
  : memory_store H * list (list string) :=
  match n with
  | O => (s, [])
  | S k =>
      let (s1, ev) := apply_decay turn s in
      let (s2, evs) := decay_sweeps s1 (turn + 1) k in
      (s2, ev :: evs)
  end.

(** A store holding one record in its warm and its cold tier. *)
Definition single_store (path : string) (hot0 : list (memory_object H))
  (m c : memory_object H) : memory_store H :=
  MemoryStore H path hot0 [(memory_id m, m)] [c].

End SpecDefs.

(* ------------------------------------------------------------------ *)
(** ** Concrete inputs *)

Open Scope float_scope.

(** A fresh ephemeral store. *)
Definition empty_store : memory_store float := store_init [] ":memory:".

(** A record as the Sentinel creates it on turn 1. *)
Definition rec_name : memory_object float :=
  MemoryObject float "mem_0000name" FACT "name" "Arjun" 1 1 1.0 0.75 ACTIVE 0 0 "name: Arjun".


(** A record as [MnemosyneEngine.inject_memory(..., confidence=0.25)]
    creates it: heat 0.25 and the default status [ACTIVE]. *)
Definition rec_low_heat : memory_object float :=
  MemoryObject float "mem_0000diet" PREFERENCE "diet" "no sugar" 0 0 0.25 0.25 ACTIVE 0 0
    "diet: no sugar".

(** A Chroma index that finds nothing. *)
Definition no_hits : list (string * string) -> string -> nat -> list (string * float) :=
  fun _ _ _ => [].

Fixpoint repeat_words (n : nat) : string :=
  match n with O => "" | S k => "w " ++ repeat_words k end.

(** A constraint whose value has 300 words. *)
Definition rec_long_rule : memory_object float :=
  MemoryObject float "mem_0000rule" CONSTRAINT "rule" (repeat_words 300) 1 1 1.0 1.0 ACTIVE 0 0
    ("rule: " ++ repeat_words 300).

(** A short constraint. *)
Definition rec_tone : memory_object float :=
  MemoryObject float "mem_0000tone" CONSTRAINT "tone" "be brief" 1 1 1.0 1.0 ACTIVE 0 0
    "tone: be brief".

(** A Chroma index that returns every document, in collection order, at
    distance 0.125. *)
Definition near_all : list (string * string) -> string -> nat -> list (string * float) :=
  fun docs _ k => firstn k (map (fun '(id, _) => (id, 0.125)) docs).

Definition rec_call : memory_object float :=
  MemoryObject float "mem_0000call" PREFERENCE "call_time" "call after 5pm" 1 1 1.0 0.75
    ACTIVE 0 0 "call_time: call after 5pm".

Definition rec_callback : memory_object float :=
  MemoryObject float "mem_00000cb1" PREFERENCE "callback" "call after 8pm" 2 2 0.75 0.75
    ACTIVE 0 0 "callback: call after 8pm".

Definition rec_callback_ring : memory_object float :=
  MemoryObject float "mem_00000cb2" PREFERENCE "callback" "ring me at 9pm" 3 3 0.75 0.75
    ACTIVE 0 0 "callback: ring me at 9pm".

Definition rec_call_late : memory_object float :=
  MemoryObject float "mem_000call2" PREFERENCE "call_time" "call after 9pm" 3 3 0.75 0.75
    ACTIVE 0 0 "call_time: call after 9pm".

(** The store holding [rec_call] only. *)
Definition store_call : memory_store float := store_add rec_call empty_store.

Definition rec_phone : memory_object float :=
  MemoryObject float "mem_000phone" PREFERENCE "phone" "call after 8pm" 1 1 1.0 0.75
    ACTIVE 0 0 "phone: call after 8pm".

(** The store holding [rec_call_late] and [rec_phone], in this order. *)
Definition store_phone : memory_store float :=
  store_add rec_phone (store_add rec_call_late empty_store).

(** The score of the first semantic hit of [rec_callback] on [store_call]. *)
Definition callback_score : float :=
  snd (hd (rec_call, 0)
         (semantic_search near_all store_call (embed_text rec_callback) 3 SIMILARITY_FOR_CONFLICT)).

(** An engine on the file "mnemosyne.db" after one turn that stored
    [rec_name]. *)
Definition engine_on_file : engine float :=
  Engine float "mnemosyne.db" (store_add rec_name (store_init [] "mnemosyne.db"))
    (Sentinel float 0.625) 1 [Message "user" "I am Arjun"; Message "assistant" "Hi Arjun"].

(** The SQLite file at reset time: the rows the engine's store wrote. *)
Definition disk_after_session : list (string * cold_tier float) :=
  [("mnemosyne.db"%string, cold (e_store engine_on_file))].

(** The store holding [rec_name] after its value is updated to "Ravi". *)
Definition store_renamed : memory_store float :=
  store_update "mem_0000name" "Ravi" 2 0.5 (store_add rec_name empty_store).

(** A record close to eviction, and the store holding it with [rec_call]. *)
Definition rec_faint : memory_object float :=
  MemoryObject float "mem_000faint" FACT "pet" "a cat" 1 1 0.0625 0.75 DECAYING 0 0 "pet: a cat".

Definition store_faint : memory_store float := store_add rec_faint store_call.
Close Scope float_scope.

(* ------------------------------------------------------------------ *)
(** ** Stores reachable by the engine's operations *)

(** The ids of a store agree across its tiers: the warm cache is a dict
    keyed by id, the cold table's ids are unique (its primary key), and
    every record of the warm cache has a row in the cold table. *)
Definition store_ids_ok {H : Type} (s : memory_store H) : Prop :=
  warm_wf (warm s) /\ NoDup (map memory_id (cold s)) /\
  incl (map fst (warm s)) (map memory_id (cold s)).

(** The stores a session can produce: a store opened on [disk], then any
    sequence of the store's writes, recalls and decay sweeps, the curator's
    batches and the oracle's retrievals. *)
Inductive reachable {H : Type} `{Num H}
  (chroma_query : list (string * string) -> string -> nat -> list (string * H))
  (disk : list (string * cold_tier H)) : memory_store H -> Prop :=
| r_init path : reachable chroma_query disk (store_init disk path)
| r_add m s : reachable chroma_query disk s -> reachable chroma_query disk (store_add m s)
| r_update id v turn now s :
    reachable chroma_query disk s -> reachable chroma_query disk (store_update id v turn now s)
| r_delete id s :
    reachable chroma_query disk s -> reachable chroma_query disk (store_delete id s)
| r_recall id turn s :
    reachable chroma_query disk s -> reachable chroma_query disk (mark_recalled id turn s)
| r_decay turn s :
    reachable chroma_query disk s -> reachable chroma_query disk (fst (apply_decay turn s))
| r_process cands turn now s :
    reachable chroma_query disk s ->
    reachable chroma_query disk (snd (process chroma_query cands turn now s))
| r_retrieve query turn s :
    reachable chroma_query disk s ->
    reachable chroma_query disk (snd (retrieve chroma_query s query turn)).

(* ================================================================== *)
(** * Properties *)

(** ** History window *)

Lemma turn_messages_app (a b : list (string * string)) :
  turn_messages (a ++ b) = turn_messages a ++ turn_messages b.
Proof. unfold turn_messages. now rewrite flat_map_app. Qed.

Lemma turn_messages_length (a : list (string * string)) :
  length (turn_messages a) = 2 * length a.
Proof.
  induction a as [|[q r] a IH]; simpl; [reflexivity|].
  rewrite IH. lia.
Qed.

Lemma turn_messages_skipn (n : nat) (a : list (string * string)) :
  skipn (2 * n) (turn_messages a) = turn_messages (skipn n a).
Proof.
  revert a. induction n as [|n IH]; intros a; [reflexivity|].
  destruct a as [|[q r] a]; [now rewrite skipn_nil|].
  replace (2 * S n) with (S (S (2 * n))) by lia. simpl. apply IH.
Qed.

Lemma last_n_turn_messages (a : list (string * string)) :
  last_n HISTORY_WINDOW (turn_messages a) = turn_messages (last_n 10 a).
Proof.
  unfold last_n, HISTORY_WINDOW. rewrite turn_messages_length.
  replace (2 * length a - 20) with (2 * (length a - 10)) by lia.
  apply turn_messages_skipn.
Qed.

Lemma last_n_last_n_app {A : Type} (n : nat) (a b : list A) :
  last_n n (last_n n a ++ b) = last_n n (a ++ b).
Proof.
  unfold last_n. rewrite !length_app, length_skipn.
  assert (E : skipn (length a - n) a ++ b = skipn (length a - n) (a ++ b)).
  { rewrite skipn_app. replace (length a - n - length a) with 0 by lia. reflexivity. }
  rewrite E, skipn_skipn. f_equal. lia.
Qed.

Lemma history_after_snoc (turns : list (string * string)) (q r : string) :
  history_after (turns ++ [(q, r)]) = update_history (history_after turns) q r.
Proof. unfold history_after. now rewrite fold_left_app. Qed.

(** C9: every turn appends its user/response pair and then truncates to
    the window cap W = [HISTORY_WINDOW] = 20, so after any sequence of turns
    the history is exactly the last W messages appended, in their order; it
    is the messages of the last 10 turns, complete user/response pairs; and
    it never holds more than W entries. *)
Theorem history_window_keeps_recent_pairs (turns : list (string * string)) :
  history_after turns = last_n HISTORY_WINDOW (turn_messages turns) /\
  history_after turns = turn_messages (last_n 10 turns) /\
  length (history_after turns) <= HISTORY_WINDOW.
Proof.
  assert (Hh : history_after turns = last_n HISTORY_WINDOW (turn_messages turns)).
  { induction turns as [|[q r] turns IH] using rev_ind; [reflexivity|].
    rewrite history_after_snoc, IH. unfold update_history.
    rewrite last_n_last_n_app, turn_messages_app. reflexivity. }
  split; [exact Hh|]. split.
  - rewrite Hh. apply last_n_turn_messages.
  - rewrite Hh. unfold last_n. rewrite length_skipn. lia.
Qed.

(** ** Re-adding a stored record *)

Lemma dict_set_present {V : Type} (k : string) (v : V) (d : list (string * V)) :
  dict_get k d = Some v -> dict_set k v d = d.
Proof.
  induction d as [|[k' v'] d IH]; simpl; [discriminate|].
  destruct (String.eqb k k') eqn:E.
  - intros Hv. injection Hv as ->. apply String.eqb_eq in E. now subst.
  - intros Hv. now rewrite IH.
Qed.

Lemma cold_merge_self {H : Type} (m : memory_object H) : cold_merge m m = m.
Proof. now destruct m. Qed.

Lemma cold_upsert_present {H : Type} (m : memory_object H) (c : cold_tier H) :
  cold_get_by_id (memory_id m) c = Some m -> cold_upsert m c = c.
Proof.
  unfold cold_get_by_id. induction c as [|row c IH]; simpl; [discriminate|].
  destruct (String.eqb (memory_id m) (memory_id row)) eqn:E.
  - intros Hv. injection Hv as ->. now rewrite cold_merge_self.
  - intros Hv. now rewrite IH.
Qed.

(** C10 (as the code has it): adding again a record the searchable (warm)
    tier holds under its id and the durable (cold) tier holds as its row
    leaves those two tiers unchanged, and the recent (hot) tier gets the
    record once more at its front, keeping at most 40 entries. *)
Theorem readd_keeps_warm_and_cold {H : Type} (m : memory_object H) (s : memory_store H)
  (Hw : warm_get_by_id (memory_id m) (warm s) = Some m)
  (Hc : cold_get_by_id (memory_id m) (cold s) = Some m) :
  warm (store_add m s) = warm s /\ cold (store_add m s) = cold s /\
  hot (store_add m s) = firstn HOT_SIZE (m :: hot s).
Proof.
  simpl. split; [|split; [|reflexivity]].
  - unfold warm_upsert. now apply dict_set_present.
  - now apply cold_upsert_present.
Qed.

(** C10 counterexample: adding [rec_name] a second time to a store that
    holds it puts a second copy into the recent tier. *)
Lemma readd_changes_recent_tier :
  let s1 := store_add rec_name empty_store in
  hot (store_add rec_name s1) <> hot s1.
Proof. vm_compute. discriminate. Qed.

Lemma readd_keeps_warm_and_cold_witness :
  let s1 := store_add rec_name empty_store in
  warm (store_add rec_name s1) = warm s1 /\ cold (store_add rec_name s1) = cold s1 /\
  hot (store_add rec_name s1) = firstn HOT_SIZE (rec_name :: hot s1).
Proof.
  apply (readd_keeps_warm_and_cold rec_name (store_add rec_name empty_store));
    vm_compute; reflexivity.
Defined.

(** ** Token budget *)

Lemma apply_budget_spec {H : Type} `{Num H} (ms : list (memory_object H)) (total : nat) :
  total <= MAX_MEMORY_TOKENS ->
  let (fs, t) := apply_budget ms total in
  t = total + tokens_of fs /\ t <= MAX_MEMORY_TOKENS /\
  exists rest, ms = fs ++ rest /\
    match rest with
    | [] => True
    | m :: _ => MAX_MEMORY_TOKENS < t + estimated_tokens m
    end.
Proof.
  revert total. induction ms as [|m ms IH]; intros total Ht; simpl.
  - split; [lia|]. split; [exact Ht|]. exists []. split; reflexivity.
  - destruct (MAX_MEMORY_TOKENS <? total + estimated_tokens m) eqn:Eb.
    + apply Nat.ltb_lt in Eb. split; [simpl; lia|]. split; [exact Ht|].
      exists (m :: ms). split; [reflexivity|exact Eb].
    + apply Nat.ltb_ge in Eb.
      specialize (IH (total + estimated_tokens m) Eb).
      destruct (apply_budget ms (total + estimated_tokens m)) as [fs t].
      destruct IH as (Et & Hle & rest & Hms & Hrest).
      split; [simpl; lia|]. split; [exact Hle|].
      exists rest. split; [simpl; now rewrite Hms|exact Hrest].
Qed.

(** C5: for every retrieval, the summed token estimates (word count of the
    prompt fragment plus 3) of the returned memories is the reported total
    and never exceeds the budget of 300, and the returned list is a prefix
    of the relevance-ranked candidates that stops at the first candidate
    whose estimate would push the total past the budget. *)
Theorem retrieve_budget_prefix {H : Type} `{Num H}
  (chroma_query : list (string * string) -> string -> nat -> list (string * H))
  (s : memory_store H) (query : string) (turn_number : Z) :
  let res := fst (retrieve chroma_query s query turn_number) in
  total_tokens res = tokens_of (memories res) /\
  tokens_of (memories res) <= MAX_MEMORY_TOKENS /\
  exists rest, ranked_candidates chroma_query s query turn_number = memories res ++ rest /\
    match rest with
    | [] => True
    | m :: _ => MAX_MEMORY_TOKENS < tokens_of (memories res) + estimated_tokens m
    end.
Proof.
  unfold retrieve, ranked_candidates.
  destruct (semantic_step chroma_query s query) as [sel1 n1].
  destruct (structural_step s sel1) as [sel2 n2].
  pose proof (apply_budget_spec (sort_desc (relevance_score turn_number) (map snd sel2)) 0)
    as Hb.
  destruct (apply_budget (sort_desc (relevance_score turn_number) (map snd sel2)) 0)
    as [fs t].
  destruct (Hb ltac:(unfold MAX_MEMORY_TOKENS; lia)) as (Et & Hle & rest & Hms & Hrest).
  simpl. split; [lia|]. split; [lia|].
  exists rest. split; [exact Hms|]. destruct rest; [exact I|]. lia.
Qed.

(** ** Decay of one record *)

Lemma decay_single_step {H : Type} `{Num H} (path : string) (hot0 : list (memory_object H))
  (m c : memory_object H) (turn : Z) :
  memory_id c = memory_id m -> (last_recalled_turn m < turn)%Z ->
  apply_decay turn (single_store path hot0 m c) =
  (let h' := decayed_heat (heat m) in
   if num_ltb h' HEAT_EVICT_THRESHOLD then (MemoryStore H path hot0 [] [], [memory_id m])
   else
     let m2 := set_status (set_heat m h')
                 (if num_ltb h' DECAYING_BELOW then DECAYING else ACTIVE) in
     (single_store path hot0 m2 (cold_merge c m2), [])).
Proof.
  intros Hc Hl. unfold apply_decay, single_store, decay_one. simpl.
  apply Z.ltb_lt in Hl. rewrite Hl.
  destruct (num_ltb (decayed_heat (heat m)) HEAT_EVICT_THRESHOLD).
  - unfold warm_remove, cold_delete. simpl. rewrite Hc, String.eqb_refl. reflexivity.
  - unfold warm_upsert. simpl. rewrite Hc, String.eqb_refl.
    destruct (num_ltb (decayed_heat (heat m)) DECAYING_BELOW); reflexivity.
Qed.

Lemma decay_sweeps_S {H : Type} `{Num H} (s : memory_store H) (turn : Z) (n : nat) :
  snd (decay_sweeps s turn (S n)) =
  snd (apply_decay turn s) :: snd (decay_sweeps (fst (apply_decay turn s)) (turn + 1) n).
Proof.
  simpl. destruct (apply_decay turn s) as [s1 ev]. simpl.
  destruct (decay_sweeps s1 (turn + 1) n) as [s2 evs]. reflexivity.
Qed.

Lemma sweeps_single {H : Type} `{Num H} (path : string) (hot0 : list (memory_object H))
  (k : nat) :
  forall (m c : memory_object H) (turn : Z),
  memory_id c = memory_id m -> (last_recalled_turn m < turn)%Z ->
  (forall j, j < k -> num_ltb (Nat.iter (S j) decayed_heat (heat m)) HEAT_EVICT_THRESHOLD = false) ->
  num_ltb (Nat.iter (S k) decayed_heat (heat m)) HEAT_EVICT_THRESHOLD = true ->
  snd (decay_sweeps (single_store path hot0 m c) turn (S k)) = repeat [] k ++ [[memory_id m]].
Proof.
  induction k as [|k IH]; intros m c turn Hc Hl Hkeep Hev;
    rewrite decay_sweeps_S, (decay_single_step path hot0 m c turn Hc Hl); cbv zeta.
  - simpl in Hev. rewrite Hev. reflexivity.
  - assert (Hd : num_ltb (decayed_heat (heat m)) HEAT_EVICT_THRESHOLD = false)
      by (apply (Hkeep 0); lia).
    rewrite Hd. cbn [fst snd repeat app]. f_equal.
    set (m2 := set_status (set_heat m (decayed_heat (heat m)))
                 (if num_ltb (decayed_heat (heat m)) DECAYING_BELOW then DECAYING else ACTIVE)).
    change (memory_id m) with (memory_id m2).
    apply IH.
    + simpl. exact Hc.
    + simpl. lia.
    + intros j Hj. simpl. rewrite <- Nat.iter_succ_r. apply Hkeep. lia.
    + simpl. rewrite <- Nat.iter_succ_r. exact Hev.
Qed.

(** C6: a record of heat 1.0, decayed by 0.04 on every sweep and never
    recalled (its sweeps run on the turns after its last recall), with IEEE
    double arithmetic as in the code: its heat stays at or above the 0.08
    eviction threshold for the first 22 sweeps and first drops below it at
    sweep 23 = ceil((1.0 - 0.08) / 0.04); [apply_decay] evicts nothing in
    sweeps 1 to 22 and reports the record's id at sweep 23. *)
Theorem decay_evicts_at_sweep_23 (r : memory_object float) (path : string)
  (hot0 : list (memory_object float)) (Hheat : heat r = 1%float) :
  (forall j, j <= 22 -> num_ltb (Nat.iter j decayed_heat (heat r)) HEAT_EVICT_THRESHOLD = false) /\
  num_ltb (Nat.iter 23 decayed_heat (heat r)) HEAT_EVICT_THRESHOLD = true /\
  snd (decay_sweeps (single_store path hot0 r r) (last_recalled_turn r + 1) 23)
  = repeat [] 22 ++ [[memory_id r]].
Proof.
  assert (Hkeep : forall j, j <= 22 ->
            num_ltb (Nat.iter j decayed_heat (heat r)) HEAT_EVICT_THRESHOLD = false).
  { rewrite Hheat. intros j Hj.
    do 23 (destruct j as [|j]; [vm_compute; reflexivity|]). lia. }
  assert (Hev : num_ltb (Nat.iter 23 decayed_heat (heat r)) HEAT_EVICT_THRESHOLD = true)
    by (rewrite Hheat; vm_compute; reflexivity).
  split; [exact Hkeep|]. split; [exact Hev|].
  apply sweeps_single.
  - reflexivity.
  - lia.
  - intros j Hj. apply Hkeep. lia.
  - exact Hev.
Qed.

Lemma decay_evicts_at_sweep_23_witness :
  heat rec_name = 1%float /\
  snd (decay_sweeps (single_store "" [] rec_name rec_name) (last_recalled_turn rec_name + 1) 23)
  = repeat [] 22 ++ [[memory_id rec_name]].
Proof.
  split; [reflexivity|].
  apply (decay_evicts_at_sweep_23 rec_name "" [] eq_refl).
Defined.

(** ** The heat/status invariant *)

(** C7 counterexample: the empty store satisfies the invariant, and adding
    the record [inject_memory] makes with confidence 0.25 stores a record of
    heat 0.25 with status [ACTIVE]. *)
Lemma add_breaks_status_invariant :
  store_ok empty_store = true /\ store_ok (store_add rec_low_heat empty_store) = false.
Proof. split; vm_compute; reflexivity. Qed.

Section Invariant.
Context {H : Type} `{Num H}.

Lemma record_ok_cold_merge (row m : memory_object H) :
  record_ok (cold_merge row m) = record_ok m.
Proof. reflexivity. Qed.

Lemma ok_dict_set (k : string) (m : memory_object H) (w : warm_tier H) :
  record_ok m = true -> forallb record_ok (warm_get_all w) = true ->
  forallb record_ok (warm_get_all (dict_set k m w)) = true.
Proof.
  intros Hm. unfold warm_get_all. induction w as [|[k' v] w IH]; simpl; intros Hw.
  - now rewrite Hm.
  - apply andb_prop in Hw as [Hv Hw].
    destruct (String.eqb k k'); simpl; rewrite ?Hm, ?Hv; simpl; auto.
Qed.

Lemma ok_dict_pop (k : string) (w : warm_tier H) :
  forallb record_ok (warm_get_all w) = true ->
  forallb record_ok (warm_get_all (dict_pop k w)) = true.
Proof.
  unfold warm_get_all. induction w as [|[k' v] w IH]; simpl; intros Hw; [reflexivity|].
  apply andb_prop in Hw as [Hv Hw].
  destruct (String.eqb k k'); simpl; rewrite ?Hv; simpl; auto.
Qed.

Lemma ok_cold_upsert (m : memory_object H) (c : cold_tier H) :
  record_ok m = true -> forallb record_ok c = true -> forallb record_ok (cold_upsert m c) = true.
Proof.
  intros Hm. induction c as [|row c IH]; simpl; intros Hc.
  - now rewrite Hm.
  - apply andb_prop in Hc as [Hr Hc].
    destruct (String.eqb (memory_id m) (memory_id row)); simpl.
    + now rewrite record_ok_cold_merge, Hm, Hc.
    + rewrite Hr. simpl. auto.
Qed.

Lemma ok_cold_delete (id : string) (c : cold_tier H) :
  forallb record_ok c = true -> forallb record_ok (cold_delete id c) = true.
Proof.
  intros Hc. apply forallb_forall. intros x Hx.
  unfold cold_delete in Hx. apply filter_In in Hx as [Hx _].
  eapply forallb_forall in Hc; eauto.
Qed.

Lemma dict_get_in {V : Type} (k : string) (v : V) (d : list (string * V)) :
  dict_get k d = Some v -> In v (map snd d).
Proof.
  induction d as [|[k' v'] d IH]; simpl; [discriminate|].
  destruct (String.eqb k k'); [intros E; injection E as ->; now left|auto].
Qed.

Lemma store_add_ok (m : memory_object H) (s : memory_store H) :
  store_ok s = true -> record_ok m = true -> store_ok (store_add m s) = true.
Proof.
  unfold store_ok. intros Hs Hm. apply andb_prop in Hs as [Hw Hc].
  unfold store_add, warm_upsert. cbn [warm cold].
  now rewrite ok_dict_set, ok_cold_upsert.
Qed.

Lemma store_update_ok (id v : string) (turn : Z) (now : H) (s : memory_store H) :
  store_ok s = true -> store_ok (store_update id v turn now s) = true.
Proof.
  unfold store_ok, store_update. intros Hs. apply andb_prop in Hs as [Hw Hc].
  assert (Hf : forall mem,
             match warm_get_by_id id (warm s) with
             | Some m => Some m
             | None => cold_get_by_id id (cold s)
             end = Some mem -> record_ok mem = true).
  { intros mem E. destruct (warm_get_by_id id (warm s)) eqn:Ew.
    - injection E as <-. apply dict_get_in in Ew.
      eapply forallb_forall in Hw; eauto.
    - unfold cold_get_by_id in E. apply find_some in E as [E _].
      eapply forallb_forall in Hc; eauto. }
  destruct (match warm_get_by_id id (warm s) with
            | Some m => Some m
            | None => cold_get_by_id id (cold s)
            end) as [mem|] eqn:E.
  - specialize (Hf mem eq_refl). unfold warm_upsert. cbn [warm cold].
    rewrite ok_dict_set, ok_cold_upsert; auto.
  - now rewrite Hw, Hc.
Qed.

Lemma store_delete_ok (id : string) (s : memory_store H) :
  store_ok s = true -> store_ok (store_delete id s) = true.
Proof.
  unfold store_ok. intros Hs. apply andb_prop in Hs as [Hw Hc].
  unfold store_delete, warm_remove. cbn [warm cold].
  now rewrite ok_dict_pop, ok_cold_delete.
Qed.

End Invariant.

(** *** Binary64 rounding

    The heat arithmetic of [mark_recalled] and [apply_decay] runs in IEEE
    binary64.  The lemmas below follow [SpecFloat]'s rounding of a sum or a
    difference of two positive doubles far from the subnormal and overflow
    ranges, enough to bound [h + 0.25] and [h - 0.04] for a heat [h] in
    [0.08, 1]. *)
Section Binary64.
Local Open Scope Z_scope.

(** [digits2_pos p] is the number of binary digits of [p]. *)
Lemma digits2_bounds (p : positive) :
  2 ^ (Zpos (SpecFloat.digits2_pos p) - 1) <= Zpos p < 2 ^ Zpos (SpecFloat.digits2_pos p).
Proof.
  induction p as [p IH|p IH|]; cbn [SpecFloat.digits2_pos].
  3: cbn; lia.
  all: rewrite Pos2Z.inj_succ; set (d := Zpos (SpecFloat.digits2_pos p)) in *.
  all: assert (Hd : 1 <= d) by (unfold d; lia).
  all: replace (Z.succ d - 1) with d by lia.
  all: assert (E : 2 ^ Z.succ d = 2 * 2 ^ d) by (apply Z.pow_succ_r; lia).
  all: assert (E2 : 2 ^ d = 2 * 2 ^ (d - 1)) by (rewrite <- Z.pow_succ_r by lia; f_equal; lia).
  1: rewrite (Pos2Z.inj_xI p). 2: rewrite (Pos2Z.inj_xO p).
  all: lia.
Qed.

Lemma digits2_eq (p : positive) (k : Z) :
  2 ^ (k - 1) <= Zpos p < 2 ^ k -> Zpos (SpecFloat.digits2_pos p) = k.
Proof.
  intros [Hl Hu]. pose proof (digits2_bounds p) as [Dl Du].
  set (d := Zpos (SpecFloat.digits2_pos p)) in *.
  destruct (Z.lt_trichotomy d k) as [Lt|[Eq|Gt]]; [|exact Eq|].
  - assert (2 ^ d <= 2 ^ (k - 1)) by (apply Z.pow_le_mono_r; lia). lia.
  - assert (2 ^ k <= 2 ^ (d - 1)) by (apply Z.pow_le_mono_r; lia). lia.
Qed.

Lemma shr_1_m (mrs : SpecFloat.shr_record) :
  0 <= SpecFloat.shr_m mrs ->
  SpecFloat.shr_m (SpecFloat.shr_1 mrs) = SpecFloat.shr_m mrs / 2 /\
  0 <= SpecFloat.shr_m (SpecFloat.shr_1 mrs).
Proof.
  destruct mrs as [m r s]; cbn [SpecFloat.shr_m]; intros Hm.
  destruct m as [|[p|p|]|p]; cbn [SpecFloat.shr_1 SpecFloat.shr_m]; try lia.
  - split; [reflexivity|lia].
  - split; [|lia]. rewrite (Pos2Z.inj_xI p). apply Z.div_unique with 1; lia.
  - split; [|lia]. rewrite (Pos2Z.inj_xO p). apply Z.div_unique with 0; lia.
  - split; [reflexivity|lia].
Qed.

(** [k] shifts of [shr_1] divide the mantissa by [2^k], rounding down. *)
Lemma iter_shr_m (p : positive) : forall mrs,
  0 <= SpecFloat.shr_m mrs ->
  SpecFloat.shr_m (SpecFloat.iter_pos SpecFloat.shr_1 p mrs) = SpecFloat.shr_m mrs / 2 ^ Zpos p /\
  0 <= SpecFloat.shr_m (SpecFloat.iter_pos SpecFloat.shr_1 p mrs).
Proof.
  assert (P : forall q, 0 < 2 ^ Zpos q) by (intros; apply Z.pow_pos_nonneg; lia).
  induction p as [p IH|p IH|]; intros mrs Hm; cbn [SpecFloat.iter_pos].
  - destruct (shr_1_m mrs Hm) as [E1 P1].
    destruct (IH _ P1) as [E2 P2]. destruct (IH _ P2) as [E3 P3].
    split; [|exact P3]. rewrite E3, E2, E1, !Z.div_div by (try apply Z.mul_pos_pos; auto; lia).
    f_equal. rewrite (Pos2Z.inj_xI p).
    replace (2 * Zpos p + 1) with (Z.succ (Zpos p + Zpos p)) by lia.
    rewrite Z.pow_succ_r, Z.pow_add_r by lia. ring.
  - destruct (IH _ Hm) as [E2 P2]. destruct (IH _ P2) as [E3 P3].
    split; [|exact P3]. rewrite E3, E2, !Z.div_div by (auto; lia).
    f_equal. rewrite (Pos2Z.inj_xO p), <- Z.add_diag, Z.pow_add_r by lia. reflexivity.
  - exact (shr_1_m mrs Hm).
Qed.

Lemma rne_cases (m : Z) (l : SpecFloat.location) :
  SpecFloat.round_nearest_even m l = m \/ SpecFloat.round_nearest_even m l = m + 1.
Proof. destruct l as [|[]]; cbn; try destruct (Z.even m); auto. Qed.

Lemma fexp64 (x : Z) : -1074 <= x - 53 -> SpecFloat.fexp FloatOps.prec FloatOps.emax x = x - 53.
Proof. unfold SpecFloat.fexp, SpecFloat.emin, FloatOps.prec, FloatOps.emax. lia. Qed.

(** Round to nearest of a positive [P * 2^e] with [k] binary digits, in the
    normal range: the result is [r * 2^(e + k - 53)] with [r] the truncation
    of [P] to 53 digits or its successor. *)
Lemma binary_round_normal (P : positive) (e k : Z) :
  2 ^ (k - 1) <= Zpos P < 2 ^ k -> 53 <= k -> -1074 <= e + (k - 53) -> e + (k - 53) < 971 ->
  exists r, (r = Zpos P / 2 ^ (k - 53) \/ r = Zpos P / 2 ^ (k - 53) + 1) /\
    SpecFloat.binary_round FloatOps.prec FloatOps.emax false P e =
      if r <? 2 ^ 53 then SpecFloat.S754_finite false (Z.to_pos r) (e + (k - 53))
      else SpecFloat.S754_finite false 4503599627370496 (e + (k - 53) + 1).
Proof.
  intros Hb Hk Hlo Hhi. unfold SpecFloat.binary_round.
  rewrite (digits2_eq P k Hb), fexp64 by lia.
  replace (k + e - 53) with (e + (k - 53)) by lia.
  assert (Hsh : SpecFloat.shl_align P e (e + (k - 53)) = (P, e)).
  { unfold SpecFloat.shl_align. destruct (e + (k - 53) - e) eqn:E; [reflexivity|reflexivity|lia]. }
  rewrite Hsh. cbv beta iota zeta. unfold SpecFloat.binary_round_aux.
  assert (Hs1 : SpecFloat.shr_fexp FloatOps.prec FloatOps.emax (Zpos P) e SpecFloat.loc_Exact =
                SpecFloat.shr (SpecFloat.Build_shr_record (Zpos P) false false) e (k - 53)).
  { unfold SpecFloat.shr_fexp. cbn [SpecFloat.Zdigits2 SpecFloat.shr_record_of_loc].
    rewrite (digits2_eq P k Hb), fexp64 by lia. f_equal. lia. }
  rewrite Hs1.
  set (n := k - 53) in *.
  set (q := Zpos P / 2 ^ n).
  assert (Hq : exists mrs', SpecFloat.shr (SpecFloat.Build_shr_record (Zpos P) false false) e n
                            = (mrs', e + n) /\ SpecFloat.shr_m mrs' = q).
  { unfold q. destruct n as [|p|p] eqn:En; [| |lia].
    - eexists. split; [unfold SpecFloat.shr; f_equal; lia|].
      cbn. rewrite Z.div_1_r. reflexivity.
    - eexists. split; [reflexivity|]. apply iter_shr_m. cbn. lia. }
  destruct Hq as [mrs' [Hs Hm']]. rewrite Hs. cbv beta iota zeta.
  assert (HN : 0 < 2 ^ n) by (apply Z.pow_pos_nonneg; lia).
  assert (Hk1 : 2 ^ k = 2 ^ n * 2 ^ 53) by (rewrite <- Z.pow_add_r by lia; f_equal; unfold n; lia).
  assert (Hk2 : 2 ^ (k - 1) = 2 ^ n * 2 ^ 52) by (rewrite <- Z.pow_add_r by lia; f_equal; unfold n; lia).
  pose proof (Z.div_mod (Zpos P) (2 ^ n)) as Hdm.
  pose proof (Z.mod_pos_bound (Zpos P) (2 ^ n) HN) as Hmod.
  fold q in Hdm.
  assert (Hqb : 2 ^ 52 <= q < 2 ^ 53) by nia.
  set (r := SpecFloat.round_nearest_even (SpecFloat.shr_m mrs') (SpecFloat.loc_of_shr_record mrs')).
  assert (Hr : r = q \/ r = q + 1) by (unfold r; rewrite <- Hm'; apply rne_cases).
  exists r. split; [exact Hr|].
  destruct (Z.ltb_spec r (2 ^ 53)) as [Hlt|Hge].
  - destruct r as [|pr|pr] eqn:Er; [lia| |lia].
    assert (Hd : Zpos (SpecFloat.digits2_pos pr) = 53) by (apply digits2_eq; cbn in *; lia).
    unfold SpecFloat.shr_fexp. cbn [SpecFloat.Zdigits2 SpecFloat.shr_record_of_loc].
    rewrite Hd, fexp64 by lia.
    replace (53 + (e + n) - 53 - (e + n)) with 0 by lia. cbn [SpecFloat.shr SpecFloat.shr_m].
    replace (e + n <=? FloatOps.emax - FloatOps.prec) with true
      by (symmetry; apply Z.leb_le; unfold FloatOps.emax, FloatOps.prec; lia).
    reflexivity.
  - assert (E53 : r = 9007199254740992) by lia. rewrite E53.
    unfold SpecFloat.shr_fexp. cbn [SpecFloat.Zdigits2 SpecFloat.shr_record_of_loc].
    change (Zpos (SpecFloat.digits2_pos 9007199254740992)) with 54.
    rewrite fexp64 by lia.
    replace (54 + (e + n) - 53 - (e + n)) with 1 by lia.
    cbn [SpecFloat.shr SpecFloat.iter_pos SpecFloat.shr_1 SpecFloat.shr_m].
    replace (e + n + 1 <=? FloatOps.emax - FloatOps.prec) with true
      by (symmetry; apply Z.leb_le; unfold FloatOps.emax, FloatOps.prec; lia).
    reflexivity.
Qed.

Lemma iter_xO (d m : positive) : Zpos (Pos.iter xO m d) = Zpos m * 2 ^ Zpos d.
Proof.
  induction d as [|d IH] using Pos.peano_ind; [cbn; lia|].
  rewrite Pos.iter_succ, Pos2Z.inj_succ, Z.pow_succ_r, (Pos2Z.inj_xO (Pos.iter xO m d)), IH by lia.
  ring.
Qed.

Lemma shl_align_fst (m : positive) (e ez : Z) :
  ez <= e -> Zpos (fst (SpecFloat.shl_align m e ez)) = Zpos m * 2 ^ (e - ez).
Proof.
  intros Hle. unfold SpecFloat.shl_align.
  destruct (ez - e) as [|d|d] eqn:E; cbn [fst].
  - replace (e - ez) with 0 by lia. ring.
  - lia.
  - rewrite iter_xO. f_equal. f_equal. lia.
Qed.

(** [SFadd] and [SFsub] of two positive finite doubles: the aligned
    mantissas are added (subtracted) exactly, then rounded once. *)
Lemma sfadd_pos (mx my : positive) (ex ey ez dx dy : Z) :
  ez = Z.min ex ey -> dx = 2 ^ (ex - ez) -> dy = 2 ^ (ey - ez) ->
  SF64add (SpecFloat.S754_finite false mx ex) (SpecFloat.S754_finite false my ey) =
  SpecFloat.binary_normalize FloatOps.prec FloatOps.emax (Zpos mx * dx + Zpos my * dy) ez false.
Proof.
  intros Ez Ex Ey. unfold SF64add, SpecFloat.SFadd, SpecFloat.cond_Zopp. rewrite <- Ez.
  rewrite !shl_align_fst by lia. now subst.
Qed.

Lemma sfsub_pos (mx my : positive) (ex ey ez dx dy : Z) :
  ez = Z.min ex ey -> dx = 2 ^ (ex - ez) -> dy = 2 ^ (ey - ez) ->
  SF64sub (SpecFloat.S754_finite false mx ex) (SpecFloat.S754_finite false my ey) =
  SpecFloat.binary_normalize FloatOps.prec FloatOps.emax (Zpos mx * dx - Zpos my * dy) ez false.
Proof.
  intros Ez Ex Ey. unfold SF64sub, SpecFloat.SFsub, SpecFloat.cond_Zopp. rewrite <- Ez.
  rewrite !shl_align_fst by lia. now subst.
Qed.

Lemma normalize_pos (M e : Z) :
  0 < M -> exists P, Zpos P = M /\
    SpecFloat.binary_normalize FloatOps.prec FloatOps.emax M e false =
    SpecFloat.binary_round FloatOps.prec FloatOps.emax false P e.
Proof. destruct M as [|P|P]; intros HM; [lia| |lia]. now exists P. Qed.

(** A valid positive double above the subnormal range has a 53-digit
    mantissa. *)
Lemma valid_normal (m : positive) (e : Z) :
  SpecFloat.valid_binary FloatOps.prec FloatOps.emax (SpecFloat.S754_finite false m e) = true ->
  -1074 < e -> 2 ^ 52 <= Zpos m < 2 ^ 53 /\ e <= 971.
Proof.
  intros Hv He. cbn [SpecFloat.valid_binary] in Hv. unfold SpecFloat.bounded in Hv.
  apply andb_prop in Hv as [Hc Hb]. unfold SpecFloat.canonical_mantissa in Hc.
  apply Z.eqb_eq in Hc. apply Z.leb_le in Hb.
  unfold SpecFloat.fexp, SpecFloat.emin, FloatOps.prec, FloatOps.emax in Hc.
  unfold FloatOps.prec, FloatOps.emax in Hb.
  pose proof (digits2_bounds m) as Hd.
  assert (E : Zpos (SpecFloat.digits2_pos m) = 53) by lia.
  rewrite E in Hd. cbn in Hd. lia.
Qed.

Lemma sfleb_pos (m1 m2 : positive) (e1 e2 : Z) :
  e1 < e2 \/ (e1 = e2 /\ Zpos m1 <= Zpos m2) ->
  SFleb (SpecFloat.S754_finite false m1 e1) (SpecFloat.S754_finite false m2 e2) = true.
Proof.
  intros Hc. unfold SFleb, SFcompare.
  destruct (Z.compare_spec e1 e2); try lia; try reflexivity.
  change (Pos.compare_cont Eq m1 m2) with (Pos.compare m1 m2).
  destruct (Pos.compare_spec m1 m2); try reflexivity; lia.
Qed.

Lemma sfleb_pos_inv (m1 m2 : positive) (e1 e2 : Z) :
  SFleb (SpecFloat.S754_finite false m1 e1) (SpecFloat.S754_finite false m2 e2) = true ->
  e1 < e2 \/ (e1 = e2 /\ Zpos m1 <= Zpos m2).
Proof.
  unfold SFleb, SFcompare.
  destruct (Z.compare_spec e1 e2); try (intros; lia); try discriminate.
  change (Pos.compare_cont Eq m1 m2) with (Pos.compare m1 m2).
  destruct (Pos.compare_spec m1 m2); intros; try discriminate; lia.
Qed.

(** The positive doubles in [0.08, 1]: [0.08] is [5764607523034235 * 2^-56]
    and [1] is [2^52 * 2^-52]. *)
Definition in_unit_range (m : positive) (e : Z) : Prop :=
  2 ^ 52 <= Zpos m < 2 ^ 53 /\
  (e = -56 /\ 5764607523034235 <= Zpos m \/ e = -55 \/ e = -54 \/ e = -53 \/
   e = -52 /\ Zpos m = 2 ^ 52).

Lemma unit_range (x : SpecFloat.spec_float) :
  SpecFloat.valid_binary FloatOps.prec FloatOps.emax x = true ->
  SFleb (SpecFloat.S754_finite false 5764607523034235 (-56)) x = true ->
  SFleb x (SpecFloat.S754_finite false 4503599627370496 (-52)) = true ->
  exists m e, x = SpecFloat.S754_finite false m e /\ in_unit_range m e.
Proof.
  intros Hv H1 H2.
  destruct x as [s|s| |s m e]; [discriminate H1|destruct s; [discriminate H1|discriminate H2]
                               |discriminate H1|].
  destruct s; [discriminate H1|].
  apply sfleb_pos_inv in H1, H2.
  pose proof (valid_normal m e Hv ltac:(lia)) as [Hm _].
  exists m, e. split; [reflexivity|]. unfold in_unit_range. lia.
Qed.

Ltac round_at P EP ez k :=
  let r := fresh "r" in let Hr := fresh "Hr" in
  destruct (binary_round_normal P ez k) as [r [Hr ->]];
  [rewrite EP; lia | lia | lia | lia |];
  rewrite EP in Hr;
  destruct (Z.ltb_spec r (2 ^ 53));
  do 2 eexists; (split; [reflexivity|]); apply sfleb_pos;
  rewrite ?Z2Pos.id by (Z.to_euclidean_division_equations; lia);
  Z.to_euclidean_division_equations; lia.

(** The recall boost: from a heat in [0.08, 1], adding 0.25 gives a positive
    double of at least 0.3. *)
Lemma boost_sf (m : positive) (e : Z) :
  in_unit_range m e ->
  exists m' e', SF64add (SpecFloat.S754_finite false m e)
                        (SpecFloat.S754_finite false 4503599627370496 (-54)) =
                SpecFloat.S754_finite false m' e' /\
    SFleb (SpecFloat.S754_finite false 5404319552844595 (-54)) (SpecFloat.S754_finite false m' e') = true.
Proof.
  intros [Hm Hr]. destruct Hr as [[-> H8]|[->|[->|[->|[-> H1]]]]].
  - rewrite (sfadd_pos m _ (-56) (-54) (-56) 1 4) by reflexivity.
    destruct (normalize_pos (Zpos m * 1 + 4503599627370496 * 4) (-56)) as [P [EP ->]]; [lia|].
    round_at P EP (-56) 55.
  - rewrite (sfadd_pos m _ (-55) (-54) (-55) 1 2) by reflexivity.
    destruct (normalize_pos (Zpos m * 1 + 4503599627370496 * 2) (-55)) as [P [EP ->]]; [lia|].
    round_at P EP (-55) 54.
  - rewrite (sfadd_pos m _ (-54) (-54) (-54) 1 1) by reflexivity.
    destruct (normalize_pos (Zpos m * 1 + 4503599627370496 * 1) (-54)) as [P [EP ->]]; [lia|].
    round_at P EP (-54) 54.
  - rewrite (sfadd_pos m _ (-53) (-54) (-54) 2 1) by reflexivity.
    destruct (normalize_pos (Zpos m * 2 + 4503599627370496 * 1) (-54)) as [P [EP ->]]; [lia|].
    destruct (Z.lt_ge_cases (Zpos P) (2 ^ 54)).
    + round_at P EP (-54) 54.
    + round_at P EP (-54) 55.
  - rewrite (sfadd_pos m _ (-52) (-54) (-54) 4 1) by reflexivity.
    destruct (normalize_pos (Zpos m * 4 + 4503599627370496 * 1) (-54)) as [P [EP ->]]; [lia|].
    round_at P EP (-54) 55.
Qed.

Ltac round_le1 P EP ez k :=
  let r := fresh "r" in let Hr := fresh "Hr" in
  destruct (binary_round_normal P ez k) as [r [Hr ->]];
  [rewrite EP; lia | lia | lia | lia |];
  rewrite EP in Hr;
  destruct (Z.ltb_spec r (2 ^ 53));
  do 2 eexists; (split; [reflexivity|]); apply sfleb_pos; lia.

(** The decay step: from a heat in [0.08, 1], subtracting 0.04 gives a
    positive double of at most 1. *)
Lemma decay_sf (m : positive) (e : Z) :
  in_unit_range m e ->
  exists m' e', SF64sub (SpecFloat.S754_finite false m e)
                        (SpecFloat.S754_finite false 5764607523034235 (-57)) =
                SpecFloat.S754_finite false m' e' /\
    SFleb (SpecFloat.S754_finite false m' e') (SpecFloat.S754_finite false 4503599627370496 (-52)) = true.
Proof.
  intros [Hm Hr]. destruct Hr as [[-> H8]|[->|[->|[->|[-> H1]]]]].
  - rewrite (sfsub_pos m _ (-56) (-57) (-57) 2 1) by reflexivity.
    destruct (normalize_pos (Zpos m * 2 - 5764607523034235 * 1) (-57)) as [P [EP ->]]; [lia|].
    destruct (Z.lt_ge_cases (Zpos P) (2 ^ 53)).
    + round_le1 P EP (-57) 53.
    + round_le1 P EP (-57) 54.
  - rewrite (sfsub_pos m _ (-55) (-57) (-57) 4 1) by reflexivity.
    destruct (normalize_pos (Zpos m * 4 - 5764607523034235 * 1) (-57)) as [P [EP ->]]; [lia|].
    destruct (Z.lt_ge_cases (Zpos P) (2 ^ 54)).
    + round_le1 P EP (-57) 54.
    + round_le1 P EP (-57) 55.
  - rewrite (sfsub_pos m _ (-54) (-57) (-57) 8 1) by reflexivity.
    destruct (normalize_pos (Zpos m * 8 - 5764607523034235 * 1) (-57)) as [P [EP ->]]; [lia|].
    destruct (Z.lt_ge_cases (Zpos P) (2 ^ 55)).
    + round_le1 P EP (-57) 55.
    + round_le1 P EP (-57) 56.
  - rewrite (sfsub_pos m _ (-53) (-57) (-57) 16 1) by reflexivity.
    destruct (normalize_pos (Zpos m * 16 - 5764607523034235 * 1) (-57)) as [P [EP ->]]; [lia|].
    destruct (Z.lt_ge_cases (Zpos P) (2 ^ 56)).
    + round_le1 P EP (-57) 56.
    + round_le1 P EP (-57) 57.
  - rewrite (sfsub_pos m _ (-52) (-57) (-57) 32 1) by reflexivity.
    destruct (normalize_pos (Zpos m * 32 - 5764607523034235 * 1) (-57)) as [P [EP ->]]; [lia|].
    round_le1 P EP (-57) 57.
Qed.

Lemma float_ltb_leb (x y : float) : (x <? y)%float = true -> (x <=? y)%float = true.
Proof.
  rewrite FloatAxioms.ltb_spec, FloatAxioms.leb_spec.
  unfold SpecFloat.SFltb, SpecFloat.SFleb.
  destruct (SpecFloat.SFcompare _ _) as [[]|]; congruence.
Qed.

(** Between two doubles that are not NaN, [not (x < y)] is [y <= x]. *)
Lemma float_not_ltb (x y : float) :
  Prim2SF x <> SpecFloat.S754_nan -> Prim2SF y <> SpecFloat.S754_nan ->
  (x <? y)%float = false -> (y <=? x)%float = true.
Proof.
  rewrite FloatAxioms.ltb_spec, FloatAxioms.leb_spec.
  generalize (Prim2SF x) (Prim2SF y). intros a b Ha Hb.
  unfold SFltb, SFleb, SFcompare.
  destruct a as [sa|sa| |sa ma ea], b as [sb|sb| |sb mb eb]; try congruence;
    try destruct sa; try destruct sb; try reflexivity; try discriminate.
  all: rewrite (Z.compare_antisym ea eb);
    change (Pos.compare_cont Eq mb ma) with (Pos.compare mb ma);
    change (Pos.compare_cont Eq ma mb) with (Pos.compare ma mb);
    rewrite (Pos.compare_antisym ma mb);
    destruct (ea ?= eb)%Z; destruct (Pos.compare ma mb); cbn; congruence.
Qed.

Lemma sfleb_03_008 (x : SpecFloat.spec_float) :
  SFleb (SpecFloat.S754_finite false 5404319552844595 (-54)) x = true ->
  SFleb (SpecFloat.S754_finite false 5764607523034235 (-56)) x = true.
Proof.
  destruct x as [s|s| |s m e]; try destruct s; try discriminate; try reflexivity.
  intros Hx. apply sfleb_pos_inv in Hx. apply sfleb_pos. lia.
Qed.

End Binary64.

(** *** The recall boost and the decay step keep the invariant *)

Section InvariantOps.
Context {H : Type} `{Num H}.

Hypothesis boost_keeps_ok : forall (mem : memory_object H) (turn : Z),
  record_ok mem = true ->
  record_ok (set_status (set_last_recalled_turn
     (set_heat mem (py_min (num_of_Z 1) (num_add (heat mem) HEAT_RECALL_BOOST))) turn) ACTIVE)
  = true.

Hypothesis decay_keeps_ok : forall (mem : memory_object H),
  record_ok mem = true ->
  let h' := decayed_heat (heat mem) in
  num_ltb h' HEAT_EVICT_THRESHOLD = false ->
  record_ok (set_status (set_heat mem h') (if num_ltb h' DECAYING_BELOW then DECAYING else ACTIVE))
  = true.

Lemma mark_recalled_ok (id : string) (turn : Z) (s : memory_store H) :
  store_ok s = true -> store_ok (mark_recalled id turn s) = true.
Proof.
  intros Hs. unfold mark_recalled.
  destruct (warm_get_by_id id (warm s)) as [mem|] eqn:E; [|exact Hs].
  unfold store_ok in *. apply andb_prop in Hs as [Hw Hc].
  assert (Hm : record_ok mem = true).
  { apply dict_get_in in E. eapply forallb_forall in Hw; eauto. }
  pose proof (boost_keeps_ok mem turn Hm) as Hb.
  unfold warm_upsert. cbn [warm cold].
  rewrite ok_dict_set, ok_cold_upsert; auto.
Qed.

Lemma decay_fold_ok (turn : Z) (l : list (memory_object H)) :
  forall acc, store_ok (fst acc) = true -> forallb record_ok l = true ->
  store_ok (fst (fold_left (decay_one turn) l acc)) = true.
Proof.
  induction l as [|mem l IH]; intros [s ev] Hs Hl; [exact Hs|].
  simpl in Hl. apply andb_prop in Hl as [Hm Hl].
  cbn [fold_left]. apply IH; [|exact Hl].
  unfold decay_one.
  destruct (last_recalled_turn mem <? turn)%Z; [|exact Hs].
  destruct (num_ltb (heat (set_heat mem (decayed_heat (heat mem)))) HEAT_EVICT_THRESHOLD) eqn:Ev.
  - exact (store_delete_ok (memory_id mem) s Hs).
  - pose proof (decay_keeps_ok mem Hm Ev) as Hd. cbv zeta in Hd.
    unfold store_ok in *. apply andb_prop in Hs as [Hw Hc].
    destruct (num_ltb (heat (set_heat mem (decayed_heat (heat mem)))) DECAYING_BELOW) eqn:Eb;
      cbn [heat set_heat] in Eb; rewrite Eb in Hd; unfold warm_upsert; cbn [fst warm cold];
      rewrite ok_dict_set, ok_cold_upsert; auto.
Qed.

End InvariantOps.

Section InvariantFloat.

Lemma heat_consts :
  Prim2SF (HEAT_EVICT_THRESHOLD : float) = SpecFloat.S754_finite false 5764607523034235 (-56) /\
  Prim2SF (DECAYING_BELOW : float) = SpecFloat.S754_finite false 5404319552844595 (-54) /\
  Prim2SF (HEAT_RECALL_BOOST : float) = SpecFloat.S754_finite false 4503599627370496 (-54) /\
  Prim2SF (HEAT_DECAY_PER_TURN : float) = SpecFloat.S754_finite false 5764607523034235 (-57) /\
  Prim2SF (num_of_Z 1 : float) = SpecFloat.S754_finite false 4503599627370496 (-52) /\
  Prim2SF (num_of_Z 0 : float) = SpecFloat.S754_zero false.
Proof. vm_compute. repeat split. Qed.

(** A record that satisfies the invariant has a heat in [0.08, 1]. *)
Lemma record_ok_unit (mem : memory_object float) :
  record_ok mem = true ->
  exists m e, Prim2SF (heat mem) = SpecFloat.S754_finite false m e /\ in_unit_range m e.
Proof.
  destruct heat_consts as (E8 & E3 & _ & _ & E1 & _).
  unfold record_ok. intros Hm. apply andb_prop in Hm as [Hm Hs]. apply andb_prop in Hm as [_ H1].
  change (@num_leb float Num_float) with PrimFloat.leb in *.
  change (@num_ltb float Num_float) with PrimFloat.ltb in *.
  rewrite FloatAxioms.leb_spec, E1 in H1.
  apply unit_range; [apply FloatAxioms.Prim2SF_valid| |exact H1].
  destruct (status mem).
  - rewrite FloatAxioms.leb_spec, E3 in Hs. now apply sfleb_03_008.
  - apply andb_prop in Hs as [Hs _]. now rewrite FloatAxioms.leb_spec, E8 in Hs.
  - discriminate.
Qed.

Lemma recall_boost_ok (mem : memory_object float) (turn : Z) :
  record_ok mem = true ->
  record_ok (set_status (set_last_recalled_turn
     (set_heat mem (py_min (num_of_Z 1) (num_add (heat mem) HEAT_RECALL_BOOST))) turn) ACTIVE)
  = true.
Proof.
  intros Hm. destruct (record_ok_unit mem Hm) as (m & e & Eh & Hu).
  destruct (boost_sf m e Hu) as (m' & e' & Ea & Hle).
  destruct heat_consts as (_ & E3 & Eb & _ & E1 & E0).
  assert (Es : Prim2SF (num_add (heat mem) HEAT_RECALL_BOOST) = SpecFloat.S754_finite false m' e').
  { change (@num_add float Num_float) with PrimFloat.add.
    rewrite FloatAxioms.add_spec, Eh, Eb. exact Ea. }
  unfold record_ok, py_min. cbn [heat status set_status set_last_recalled_turn set_heat].
  change (@num_leb float Num_float) with PrimFloat.leb.
  change (@num_ltb float Num_float) with PrimFloat.ltb.
  destruct (PrimFloat.ltb (num_add (heat mem) HEAT_RECALL_BOOST) (num_of_Z 1)) eqn:Elt.
  - rewrite (float_ltb_leb _ _ Elt), !FloatAxioms.leb_spec, Es, E0, E3, Hle. reflexivity.
  - vm_compute. reflexivity.
Qed.

Lemma decay_step_ok (mem : memory_object float) :
  record_ok mem = true ->
  let h' := decayed_heat (heat mem) in
  num_ltb h' HEAT_EVICT_THRESHOLD = false ->
  record_ok (set_status (set_heat mem h') (if num_ltb h' DECAYING_BELOW then DECAYING else ACTIVE))
  = true.
Proof.
  intros Hm h' Hev. destruct (record_ok_unit mem Hm) as (m & e & Eh & Hu).
  destruct (decay_sf m e Hu) as (m' & e' & Es & Hle).
  destruct heat_consts as (E8 & E3 & _ & Ed & E1 & E0).
  assert (Ed' : Prim2SF (num_sub (heat mem) HEAT_DECAY_PER_TURN) = SpecFloat.S754_finite false m' e').
  { change (@num_sub float Num_float) with PrimFloat.sub.
    rewrite FloatAxioms.sub_spec, Eh, Ed. exact Es. }
  assert (Eh' : h' = num_sub (heat mem) HEAT_DECAY_PER_TURN).
  { unfold h', decayed_heat, py_max. change (@num_ltb float Num_float) with PrimFloat.ltb.
    rewrite FloatAxioms.ltb_spec, Ed', E0. reflexivity. }
  assert (Hn : Prim2SF h' <> SpecFloat.S754_nan) by (rewrite Eh', Ed'; discriminate).
  unfold record_ok. cbn [heat status set_status set_heat].
  change (@num_leb float Num_float) with PrimFloat.leb in *.
  change (@num_ltb float Num_float) with PrimFloat.ltb in *.
  assert (L0 : (num_of_Z 0 <=? h')%float = true)
    by (rewrite FloatAxioms.leb_spec, Eh', Ed', E0; reflexivity).
  assert (L1 : (h' <=? num_of_Z 1)%float = true)
    by (rewrite FloatAxioms.leb_spec, Eh', Ed', E1; exact Hle).
  rewrite L0, L1. cbn [andb].
  destruct (h' <? DECAYING_BELOW)%float eqn:E3'; cbv beta iota.
  - rewrite (float_not_ltb _ _ Hn ltac:(rewrite E8; discriminate) Hev). reflexivity.
  - exact (float_not_ltb _ _ Hn ltac:(rewrite E3; discriminate) E3').
Qed.

End InvariantFloat.

(** C7 (as the code has it): with the code's binary64 arithmetic for the
    heat, when every record of the searchable and durable tiers has heat in
    [0, 1], is not [EVICTED], and has the status its heat determines
    ([ACTIVE] iff heat >= 0.3, [DECAYING] iff 0.08 <= heat < 0.3), then so
    does every record after [update], [delete], [mark_recalled] and
    [apply_decay] (which deletes from both tiers every record whose heat
    falls below 0.08), and after [add] of a record that itself satisfies
    it; [add] stores the record as given, without clamping its heat or
    deriving its status. *)
Theorem store_ops_keep_status_invariant (s : memory_store float) (Hs : store_ok s = true) :
  (forall m, record_ok m = true -> store_ok (store_add m s) = true) /\
  (forall id v turn now, store_ok (store_update id v turn now s) = true) /\
  (forall id, store_ok (store_delete id s) = true) /\
  (forall id turn, store_ok (mark_recalled id turn s) = true) /\
  (forall turn, store_ok (fst (apply_decay turn s)) = true).
Proof.
  split; [intros m Hm; now apply store_add_ok|].
  split; [intros; now apply store_update_ok|].
  split; [intros; now apply store_delete_ok|].
  split; [intros id turn; exact (mark_recalled_ok recall_boost_ok id turn s Hs)|].
  intros turn. unfold apply_decay. apply (decay_fold_ok decay_step_ok); [exact Hs|].
  unfold store_ok in Hs. now apply andb_prop in Hs as [Hw _].
Qed.

Lemma store_ops_keep_status_invariant_witness :
  store_ok store_phone = true /\ store_ok (fst (apply_decay 5 store_phone)) = true.
Proof.
  split; [vm_compute; reflexivity|].
  exact (proj2 (proj2 (proj2 (proj2
           (store_ops_keep_status_invariant store_phone ltac:(vm_compute; reflexivity))))) 5%Z).
Defined.

(** ** Always-inject records *)

(** C3 counterexample: a store holding one non-evicted constraint whose
    prompt fragment has 302 words (estimate 305 > 300): no retrieval returns
    it, whatever its score. *)
Lemma structural_hit_dropped_by_budget :
  let s := store_add rec_long_rule empty_store in
  In rec_long_rule (get_by_type s CONSTRAINT) /\ status rec_long_rule <> EVICTED /\
  memories (fst (retrieve no_hits s "what are my rules?" 2)) = [].
Proof.
  split; [vm_compute; left; reflexivity|].
  split; [discriminate|]. vm_compute. reflexivity.
Qed.

Section Retrieval.
Context {H : Type} `{Num H}.

Lemma fold_pres {A B : Type} (g : B -> A -> B) (l : list A) (I : B -> Prop) :
  (forall acc y, In y l -> I acc -> I (g acc y)) ->
  forall acc, I acc -> I (fold_left g l acc).
Proof.
  induction l as [|y l IH]; intros Hg acc Hacc; simpl; [exact Hacc|].
  apply IH; [intros; apply Hg; simpl; auto|apply Hg; simpl; auto].
Qed.

Lemma fold_reach {A B : Type} (g : B -> A -> B) (l : list A) (I R : B -> Prop) (a : A) :
  (forall acc y, In y l -> I acc -> I (g acc y)) ->
  (forall acc y, In y l -> I acc -> R acc -> R (g acc y)) ->
  (forall acc, I acc -> R (g acc a)) ->
  In a l -> forall acc, I acc -> R (fold_left g l acc).
Proof.
  intros HI HR Ha. induction l as [|y l IH]; intros Hin acc Hacc; [destruct Hin|].
  simpl. destruct Hin as [->|Hin].
  - assert (Hp : I (fold_left g l (g acc a)) /\ R (fold_left g l (g acc a))).
    { apply (fold_pres g l (fun b => I b /\ R b)).
      - intros acc' y' Hy [HIa HRa]. split; [apply HI|apply HR]; simpl; auto.
      - split; [apply HI; simpl; auto|apply Ha; exact Hacc]. }
    exact (proj2 Hp).
  - apply IH; auto.
    + intros; apply HI; simpl; auto.
    + intros; apply HR; simpl; auto.
    + apply HI; simpl; auto.
Qed.

Lemma insert_desc_in {A : Type} (f : A -> H) (x y : A) (l : list A) :
  In x (insert_desc f y l) <-> x = y \/ In x l.
Proof.
  induction l as [|z l IH]; simpl; [intuition congruence|].
  destruct (num_ltb (f z) (f y)); simpl; [intuition congruence|].
  rewrite IH. intuition congruence.
Qed.

Lemma sort_desc_in {A : Type} (f : A -> H) (x : A) (l : list A) :
  In x (sort_desc f l) <-> In x l.
Proof.
  unfold sort_desc.
  assert (G : forall acc, In x (fold_left (fun acc y => insert_desc f y acc) l acc)
                          <-> In x acc \/ In x l).
  { induction l as [|y l IH]; intros acc; simpl; [tauto|].
    rewrite IH, insert_desc_in. intuition. }
  rewrite G. simpl. tauto.
Qed.

Lemma warm_search_in chroma_query (w : warm_tier H) q k th x sc :
  In (x, sc) (warm_search chroma_query w q k th) -> In x (warm_get_all w).
Proof.
  unfold warm_search. destruct w as [|p w'] eqn:Ew; [intros []|].
  rewrite <- Ew. rewrite sort_desc_in.
  revert x sc. apply (fold_pres _ _ (fun hits => forall x sc, In (x, sc) hits -> In x (warm_get_all w))).
  - intros hits [mem_id d] _ IHh x sc Hin.
    destruct (warm_get_by_id mem_id w) as [mem|] eqn:E; [|exact (IHh x sc Hin)].
    destruct (num_leb th _); [|exact (IHh x sc Hin)].
    apply in_app_or in Hin as [Hin|[Hin|[]]]; [exact (IHh x sc Hin)|].
    injection Hin as <- _. exact (dict_get_in _ _ _ E).
  - intros ? ? [].
Qed.

Definition sel_inv (w : warm_tier H) (sel : list (string * memory_object H)) : Prop :=
  forall k v, In (k, v) sel -> k = memory_id v /\ In v (warm_get_all w).

Definition sel_has (k : string) (sel : list (string * memory_object H)) : Prop :=
  exists v, In (k, v) sel.

Lemma dict_get_some_in {V : Type} (k : string) (v : V) (d : list (string * V)) :
  dict_get k d = Some v -> In (k, v) d.
Proof.
  induction d as [|[k' v'] d IH]; simpl; [discriminate|].
  destruct (String.eqb k k') eqn:E; [|auto].
  apply String.eqb_eq in E as ->. intros Ev; injection Ev as ->. now left.
Qed.

Lemma dict_set_self {V : Type} (k : string) (v : V) (d : list (string * V)) :
  In (k, v) (dict_set k v d).
Proof.
  induction d as [|[k' v'] d IH]; simpl; [now left|].
  destruct (String.eqb k k'); [now left|now right].
Qed.

Lemma dict_set_in {V : Type} (k k' : string) (v v' : V) (d : list (string * V)) :
  In (k', v') (dict_set k v d) -> (k', v') = (k, v) \/ In (k', v') d.
Proof.
  induction d as [|[k0 v0] d IH]; simpl; intros Hin.
  - destruct Hin as [<-|[]]. now left.
  - destruct (String.eqb k k0); destruct Hin as [<-|Hin]; auto.
    destruct (IH Hin); auto.
Qed.

Lemma dict_set_has {V : Type} (k k' : string) (v v' : V) (d : list (string * V)) :
  In (k', v') d -> exists v'', In (k', v'') (dict_set k v d).
Proof.
  induction d as [|[k0 v0] d IH]; simpl; intros Hin; [destruct Hin|].
  destruct (String.eqb k k0) eqn:E.
  - apply String.eqb_eq in E as ->. destruct Hin as [Heq|Hin].
    + injection Heq as <- _. exists v. now left.
    + exists v'. now right.
  - destruct Hin as [Heq|Hin]; [exists v'; now left|].
    destruct (IH Hin) as [v'' Hv]. exists v''. now right.
Qed.

Lemma select_spec (w : warm_tier H) acc mem :
  In mem (warm_get_all w) -> sel_inv w (fst acc) ->
  sel_inv w (fst (select acc mem)) /\
  (forall k, sel_has k (fst acc) -> sel_has k (fst (select acc mem))) /\
  sel_has (memory_id mem) (fst (select acc mem)).
Proof.
  intros Hm Hinv. destruct acc as [sel n]. unfold select. simpl in *.
  destruct (dict_get (memory_id mem) sel) as [v|] eqn:E; simpl.
  - split; [exact Hinv|]. split; [auto|]. exists v. now apply dict_get_some_in.
  - split; [|split].
    + intros k v Hin. apply dict_set_in in Hin as [Heq|Hin]; [|exact (Hinv k v Hin)].
      injection Heq as -> ->. now split.
    + intros k [v Hv]. eapply dict_set_has. exact Hv.
    + exists mem. apply dict_set_self.
Qed.

Lemma semantic_step_inv chroma_query (s : memory_store H) query :
  sel_inv (warm s) (fst (semantic_step chroma_query s query)).
Proof.
  unfold semantic_step.
  apply (fold_pres _ _ (fun acc => sel_inv (warm s) (fst acc))); [|intros k v []].
  intros acc y Hy Hi. apply select_spec; [|exact Hi].
  apply in_map_iff in Hy as [[x sc] [Ex Hin]]. simpl in Ex; subst x.
  exact (warm_search_in _ _ _ _ _ _ _ Hin).
Qed.

Lemma structural_step_spec (s : memory_store H) sel :
  sel_inv (warm s) sel ->
  sel_inv (warm s) (fst (structural_step s sel)) /\
  forall m, In m (warm_get_all (warm s)) -> status m <> EVICTED ->
    In (type m) ALWAYS_INJECT_TYPES -> sel_has (memory_id m) (fst (structural_step s sel)).
Proof.
  intros Hsel.
  set (I := fun acc : list (string * memory_object H) * nat => sel_inv (warm s) (fst acc)).
  set (g := fun (acc : list (string * memory_object H) * nat) (mem : memory_object H) =>
              if negb (memory_status_eqb (status mem) EVICTED)
                           then select acc mem else acc).
  assert (Hg : forall acc y, In y (warm_get_all (warm s)) -> I acc ->
                 I (g acc y) /\ forall k, sel_has k (fst acc) -> sel_has k (fst (g acc y))).
  { intros acc y Hy Hi. unfold g. destruct (negb _); [|split; auto].
    destruct (select_spec _ acc y Hy Hi) as (A & B & _). split; auto. }
  assert (Hin_t : forall t y, In y (get_by_type s t) -> In y (warm_get_all (warm s))).
  { intros t y Hy. unfold get_by_type, warm_get_by_type in Hy.
    apply filter_In in Hy. exact (proj1 Hy). }
  assert (Hinner : forall t acc, I acc ->
            I (fold_left g (get_by_type s t) acc) /\
            forall k, sel_has k (fst acc) -> sel_has k (fst (fold_left g (get_by_type s t) acc))).
  { intros t acc Hi.
    assert (P : I (fold_left g (get_by_type s t) acc) /\
                forall k, sel_has k (fst acc) -> sel_has k (fst (fold_left g (get_by_type s t) acc))).
    { split.
      - apply fold_pres; [|exact Hi]. intros acc' y Hy Hi'. exact (proj1 (Hg _ _ (Hin_t t y Hy) Hi')).
      - intros k Hk.
        apply (fold_pres g (get_by_type s t) (fun b => I b /\ sel_has k (fst b))); [|now split].
        intros acc' y Hy [Hi' Hk']. destruct (Hg _ _ (Hin_t t y Hy) Hi') as [A B]. auto. }
    exact P. }
  unfold structural_step. fold g. split.
  - apply (fold_pres _ _ I); [|exact Hsel]. intros acc t _ Hi. exact (proj1 (Hinner t acc Hi)).
  - intros m Hm Hst Ht.
    apply (fold_reach _ _ I (fun b => sel_has (memory_id m) (fst b)) (type m)); auto.
    + intros acc t _ Hi. exact (proj1 (Hinner t acc Hi)).
    + intros acc t _ Hi Hk. exact (proj2 (Hinner t acc Hi) _ Hk).
    + intros acc Hi.
      apply (fold_reach g (get_by_type s (type m)) I (fun b => sel_has (memory_id m) (fst b)) m).
      * intros acc' y Hy Hi'. exact (proj1 (Hg _ _ (Hin_t _ y Hy) Hi')).
      * intros acc' y Hy Hi' Hk. exact (proj2 (Hg _ _ (Hin_t _ y Hy) Hi') _ Hk).
      * intros acc' Hi'. unfold g.
        replace (negb (memory_status_eqb (status m) EVICTED)) with true
          by (destruct (status m); simpl; congruence).
        exact (proj2 (proj2 (select_spec _ acc' m Hm Hi'))).
      * unfold get_by_type, warm_get_by_type. apply filter_In. split; [exact Hm|].
        destruct (type m); reflexivity.
      * exact Hi.
Qed.

Lemma nodup_fst_unique {V : Type} (w : list (string * V)) k a b :
  NoDup (map fst w) -> In (k, a) w -> In (k, b) w -> a = b.
Proof.
  induction w as [|[k0 v0] w IH]; simpl; intros Hnd Ha Hb; [destruct Ha|].
  apply NoDup_cons_iff in Hnd as [Hk Hnd'].
  destruct Ha as [Ea|Ha]; destruct Hb as [Eb|Hb].
  - congruence.
  - injection Ea as <- <-. exfalso. apply Hk. exact (in_map fst _ _ Hb).
  - injection Eb as <- <-. exfalso. apply Hk. exact (in_map fst _ _ Ha).
  - exact (IH Hnd' Ha Hb).
Qed.

Lemma warm_wf_unique (w : warm_tier H) a b :
  warm_wf w -> In a (warm_get_all w) -> In b (warm_get_all w) ->
  memory_id a = memory_id b -> a = b.
Proof.
  intros [Hnd Hkey] Ha Hb Eab. unfold warm_get_all in Ha, Hb.
  apply in_map_iff in Ha as [[ka a'] [Ea Ha]]. apply in_map_iff in Hb as [[kb b'] [Eb Hb]].
  simpl in Ea, Eb; subst a' b'.
  rewrite Forall_forall in Hkey.
  pose proof (Hkey _ Ha) as Eka. pose proof (Hkey _ Hb) as Ekb. simpl in Eka, Ekb.
  subst ka kb. rewrite Eab in Ha. exact (nodup_fst_unique w _ _ _ Hnd Ha Hb).
Qed.

Lemma tokens_of_app (l1 l2 : list (memory_object H)) :
  tokens_of (l1 ++ l2) = tokens_of l1 + tokens_of l2.
Proof. induction l1 as [|m l1 IH]; simpl; [reflexivity|]. rewrite IH. lia. Qed.

Lemma apply_budget_all (ms : list (memory_object H)) :
  tokens_of ms <= MAX_MEMORY_TOKENS -> fst (apply_budget ms 0) = ms.
Proof.
  intros Hle. pose proof (apply_budget_spec ms 0) as Hb.
  destruct (apply_budget ms 0) as [fs t].
  destruct (Hb ltac:(unfold MAX_MEMORY_TOKENS; lia)) as (Et & _ & rest & Hms & Hrest).
  simpl. destruct rest as [|m rest]; [rewrite Hms; symmetry; apply app_nil_r|].
  exfalso. rewrite Hms, tokens_of_app in Hle. simpl in Hle. lia.
Qed.

Lemma ranked_candidates_in chroma_query (s : memory_store H) query turn m :
  In m (ranked_candidates chroma_query s query turn) <->
  In m (map snd (fst (structural_step s (fst (semantic_step chroma_query s query))))).
Proof.
  unfold ranked_candidates.
  destruct (semantic_step chroma_query s query) as [sel1 n1].
  change (fst (sel1, n1)) with sel1.
  destruct (structural_step s sel1) as [sel2 n2]. apply sort_desc_in.
Qed.

Lemma retrieve_memories chroma_query (s : memory_store H) query turn :
  memories (fst (retrieve chroma_query s query turn)) =
  fst (apply_budget (ranked_candidates chroma_query s query turn) 0).
Proof.
  unfold retrieve, ranked_candidates.
  destruct (semantic_step chroma_query s query) as [sel1 n1].
  destruct (structural_step s sel1) as [sel2 n2].
  destruct (apply_budget _ 0) as [fs t]. reflexivity.
Qed.

(** C3 (amended): every non-evicted constraint or commitment of the warm
    cache is among the ranked candidates of every retrieval, whatever its
    semantic score; it is in the returned memories whenever all ranked
    candidates together fit the token budget of 300. *)
Theorem always_inject_reach_ranking chroma_query (s : memory_store H) query turn m :
  warm_wf (warm s) -> In m (warm_get_all (warm s)) -> status m <> EVICTED ->
  In (type m) ALWAYS_INJECT_TYPES ->
  In m (ranked_candidates chroma_query s query turn) /\
  (tokens_of (ranked_candidates chroma_query s query turn) <= MAX_MEMORY_TOKENS ->
   In m (memories (fst (retrieve chroma_query s query turn)))).
Proof.
  intros Hwf Hm Hst Ht.
  assert (Hr : In m (ranked_candidates chroma_query s query turn)).
  { apply ranked_candidates_in.
    destruct (structural_step_spec s _ (semantic_step_inv chroma_query s query))
      as [Hinv Hhas].
    destruct (Hhas m Hm Hst Ht) as [v Hv].
    destruct (Hinv _ _ Hv) as [Ek Hvw].
    rewrite (warm_wf_unique (warm s) v m Hwf Hvw Hm (eq_sym Ek)) in Hv.
    exact (in_map snd _ _ Hv). }
  split; [exact Hr|]. intros Hle.
  rewrite retrieve_memories, apply_budget_all; assumption.
Qed.

End Retrieval.

Lemma always_inject_reach_ranking_witness :
  let s := store_add rec_tone empty_store in
  (warm_wf (warm s) /\ In rec_tone (warm_get_all (warm s)) /\ status rec_tone <> EVICTED /\
   In (type rec_tone) ALWAYS_INJECT_TYPES) /\
  (In rec_tone (ranked_candidates no_hits s "hello" 2) /\
   (tokens_of (ranked_candidates no_hits s "hello" 2) <= MAX_MEMORY_TOKENS ->
    In rec_tone (memories (fst (retrieve no_hits s "hello" 2))))).
Proof.
  intros s.
  assert (Hwf : warm_wf (warm s)).
  { split; vm_compute; repeat constructor; intros []. }
  assert (Hm : In rec_tone (warm_get_all (warm s))) by (vm_compute; left; reflexivity).
  assert (Hst : status rec_tone <> EVICTED) by discriminate.
  assert (Ht : In (type rec_tone) ALWAYS_INJECT_TYPES) by (vm_compute; left; reflexivity).
  split; [split; [exact Hwf|split; [exact Hm|split; [exact Hst|exact Ht]]]|].
  exact (always_inject_reach_ranking no_hits s "hello" 2 rec_tone Hwf Hm Hst Ht).
Defined.

(** ** The curator's lookup table within a batch *)

(** C1 (failing input): the batch [rec_callback; rec_callback_ring] on the
    store holding [rec_call]. The first candidate contradicts [rec_call]
    (5pm against 8pm) and replaces it; the table is not told, so when the
    second candidate arrives the active record [rec_callback] shares its
    (key, kind) pair, yet the decision is a Delete of [rec_callback]. *)
Theorem same_key_after_delete_gets_delete :
  let s1 := execute (decide near_all store_call rec_callback (build_table store_call))
              3 0%float store_call in
  In rec_callback (get_all_active s1) /\
  key rec_callback = key rec_callback_ring /\ type rec_callback = type rec_callback_ring /\
  map (fun d => (operation d, target_id d))
    (fst (process near_all [rec_callback; rec_callback_ring] 3 0%float store_call)) =
  [(DELETE, Some "mem_0000call"%string); (DELETE, Some "mem_00000cb1"%string)].
Proof.
  split; [vm_compute; left; reflexivity|].
  split; [reflexivity|]. split; [reflexivity|]. vm_compute. reflexivity.
Qed.

(** C4 (failing input): the batch [rec_callback; rec_call_late] on the
    store holding [rec_call]. After the Delete of [rec_call] the table still
    maps ("call_time", Preference) to it, so the second candidate is decided
    as an Update of the deleted id; the update finds no record and the value
    "call after 9pm" is stored nowhere. *)
Theorem stale_table_loses_update :
  let s1 := execute (decide near_all store_call rec_callback (build_table store_call))
              3 0%float store_call in
  let r := process near_all [rec_callback; rec_call_late] 3 0%float store_call in
  warm_get_by_id "mem_0000call" (warm s1) = None /\
  cold_get_by_id "mem_0000call" (cold s1) = None /\
  map (fun d => (operation d, target_id d)) (fst r) =
  [(DELETE, Some "mem_0000call"%string); (UPDATE, Some "mem_0000call"%string)] /\
  map value (get_all_active (snd r)) = ["call after 8pm"%string] /\
  map value (cold (snd r)) = ["call after 8pm"%string].
Proof.
  split; [vm_compute; reflexivity|]. split; [vm_compute; reflexivity|].
  vm_compute. repeat split.
Qed.

(** ** Contradiction replacement *)

(** C2 counterexample: [rec_call_late] ("call after 9pm") is active, has
    no exact key match with [rec_callback] ("call after 8pm"), is a semantic
    hit above 0.55 and contradicts it; but [rec_phone], a same-value hit
    with a higher score, is examined first and the decision is Noop. *)
Lemma duplicate_hit_masks_contradiction :
  let hits := semantic_search near_all store_phone (embed_text rec_callback) 3
                SIMILARITY_FOR_CONFLICT in
  In rec_call_late (get_all_active store_phone) /\
  table_get (key rec_callback, type rec_callback) (build_table store_phone) = None /\
  (exists sc, In (rec_call_late, sc) hits /\ num_leb SIMILARITY_FOR_CONFLICT sc = true) /\
  is_contradiction (value rec_callback) (value rec_call_late) = true /\
  operation (decide near_all store_phone rec_callback (build_table store_phone)) = NOOP /\
  target_id (decide near_all store_phone rec_callback (build_table store_phone)) =
    Some (memory_id rec_phone).
Proof.
  intros hits.
  split; [vm_compute; left; reflexivity|]. split; [vm_compute; reflexivity|].
  split; [|vm_compute; repeat split].
  exists (snd (nth 1 hits (rec_call, 0%float))).
  split; [vm_compute; right; left; reflexivity|vm_compute; reflexivity].
Qed.

Section Swap.
Context {H : Type} `{Num H}.

Lemma dict_get_notin {V : Type} (k : string) (d : list (string * V)) :
  ~ In k (map fst d) -> dict_get k d = None.
Proof.
  induction d as [|[k0 v0] d IH]; simpl; intros Hn; [reflexivity|].
  destruct (String.eqb k k0) eqn:E.
  - apply String.eqb_eq in E. subst. exfalso. apply Hn. now left.
  - apply IH. intros Hin. apply Hn. now right.
Qed.

Lemma dict_get_set_same {V : Type} (k : string) (v : V) (d : list (string * V)) :
  dict_get k (dict_set k v d) = Some v.
Proof.
  induction d as [|[k0 v0] d IH]; simpl; [now rewrite String.eqb_refl|].
  destruct (String.eqb k k0) eqn:E; simpl; [now rewrite String.eqb_refl|].
  rewrite E. exact IH.
Qed.

Lemma dict_get_set_other {V : Type} (k k' : string) (v : V) (d : list (string * V)) :
  k <> k' -> dict_get k (dict_set k' v d) = dict_get k d.
Proof.
  intros Hne. pose proof (proj2 (String.eqb_neq _ _) Hne) as Ekk.
  induction d as [|[k0 v0] d IH]; simpl; [now rewrite Ekk|].
  destruct (String.eqb k' k0) eqn:E; simpl.
  - apply String.eqb_eq in E. subst k0. now rewrite Ekk.
  - destruct (String.eqb k k0); [reflexivity|exact IH].
Qed.

Lemma dict_get_pop_nodup {V : Type} (k : string) (d : list (string * V)) :
  NoDup (map fst d) -> dict_get k (dict_pop k d) = None.
Proof.
  induction d as [|[k0 v0] d IH]; simpl; intros Hnd; [reflexivity|].
  apply NoDup_cons_iff in Hnd as [Hk Hnd].
  destruct (String.eqb k k0) eqn:E.
  - apply String.eqb_eq in E. subst. now apply dict_get_notin.
  - simpl. rewrite E. now apply IH.
Qed.

Lemma dict_set_length_new {V : Type} (k : string) (v : V) (d : list (string * V)) :
  ~ In k (map fst d) -> length (dict_set k v d) = S (length d).
Proof.
  induction d as [|[k0 v0] d IH]; simpl; intros Hn; [reflexivity|].
  destruct (String.eqb k k0) eqn:E.
  - apply String.eqb_eq in E. subst. exfalso. apply Hn. now left.
  - simpl. f_equal. apply IH. intros Hin. apply Hn. now right.
Qed.

Lemma dict_pop_length {V : Type} (k : string) (d : list (string * V)) :
  In k (map fst d) -> S (length (dict_pop k d)) = length d.
Proof.
  induction d as [|[k0 v0] d IH]; simpl; [intros []|].
  destruct (String.eqb k k0) eqn:E; [reflexivity|].
  intros [E'|Hin].
  - subst. rewrite String.eqb_refl in E. discriminate.
  - simpl. f_equal. exact (IH Hin).
Qed.

Lemma dict_pop_keys {V : Type} (k k' : string) (d : list (string * V)) :
  In k' (map fst (dict_pop k d)) -> In k' (map fst d).
Proof.
  induction d as [|[k0 v0] d IH]; simpl; [auto|].
  destruct (String.eqb k k0); simpl; [auto|]. intros [E|Hin]; [now left|right; auto].
Qed.

Lemma warm_wf_key (w : warm_tier H) m :
  warm_wf w -> In m (warm_get_all w) -> In (memory_id m) (map fst w).
Proof.
  intros [_ Hkey] Hm. unfold warm_get_all in Hm.
  apply in_map_iff in Hm as [[k m'] [Em Hin]]. simpl in Em. subst m'.
  rewrite Forall_forall in Hkey. pose proof (Hkey _ Hin) as Ek. simpl in Ek. subst k.
  exact (in_map fst _ _ Hin).
Qed.

Lemma cold_upsert_new (m : memory_object H) (c : cold_tier H) :
  ~ In (memory_id m) (map memory_id c) -> cold_upsert m c = c ++ [m].
Proof.
  induction c as [|row c IH]; simpl; intros Hn; [reflexivity|].
  destruct (String.eqb (memory_id m) (memory_id row)) eqn:E.
  - apply String.eqb_eq in E. exfalso. apply Hn. now left.
  - f_equal. apply IH. intros Hin. apply Hn. now right.
Qed.

Lemma cold_delete_ids (id x : string) (c : cold_tier H) :
  In x (map memory_id (cold_delete id c)) -> In x (map memory_id c).
Proof.
  unfold cold_delete. intros Hx. apply in_map_iff in Hx as [r [<- Hr]].
  apply filter_In in Hr. exact (in_map memory_id _ _ (proj1 Hr)).
Qed.

Lemma cold_delete_absent (id : string) (c : cold_tier H) :
  ~ In id (map memory_id c) -> cold_delete id c = c.
Proof.
  unfold cold_delete. induction c as [|row c IH]; simpl; intros Hn; [reflexivity|].
  destruct (String.eqb id (memory_id row)) eqn:E; simpl.
  - apply String.eqb_eq in E. exfalso. apply Hn. now left.
  - f_equal. apply IH. intros Hin. apply Hn. now right.
Qed.

Lemma cold_delete_length (id : string) (c : cold_tier H) :
  NoDup (map memory_id c) -> In id (map memory_id c) -> S (length (cold_delete id c)) = length c.
Proof.
  induction c as [|row c IH]; simpl; intros Hnd Hin; [destruct Hin|].
  apply NoDup_cons_iff in Hnd as [Hr Hnd].
  pose proof (cold_delete_absent (memory_id row) c Hr) as Eabs.
  unfold cold_delete in *. simpl.
  destruct (String.eqb id (memory_id row)) eqn:E; simpl.
  - apply String.eqb_eq in E. subst id. now rewrite Eabs.
  - destruct Hin as [E'|Hin]; [subst; rewrite String.eqb_refl in E; discriminate|].
    f_equal. exact (IH Hnd Hin).
Qed.

Lemma cold_find_deleted (id : string) (m : memory_object H) (c : cold_tier H) :
  id <> memory_id m ->
  cold_get_by_id id (cold_delete id c ++ [m]) = None.
Proof.
  intros Hne. unfold cold_get_by_id, cold_delete.
  induction c as [|row c IH]; simpl.
  - now rewrite (proj2 (String.eqb_neq _ _) Hne).
  - destruct (String.eqb id (memory_id row)) eqn:E; simpl; [exact IH|].
    rewrite E. exact IH.
Qed.

Lemma scan_similar_delete (cand : memory_object H) pre old sc post :
  (forall x scx, In (x, scx) pre ->
     (num_leb SIMILARITY_FOR_DUPLICATE scx && values_are_same (value cand) (value x)) = false /\
     (num_leb SIMILARITY_FOR_CONFLICT scx && is_contradiction (value cand) (value x)) = false) ->
  (num_leb SIMILARITY_FOR_DUPLICATE sc && values_are_same (value cand) (value old)) = false ->
  num_leb SIMILARITY_FOR_CONFLICT sc = true ->
  is_contradiction (value cand) (value old) = true ->
  scan_similar cand (pre ++ (old, sc) :: post) =
  CuratorDecision H DELETE cand (Some (memory_id old)).
Proof.
  intros Hpre Hdup Hconf Hcon. induction pre as [|[x scx] pre IH]; simpl.
  - now rewrite Hdup, Hconf, Hcon.
  - destruct (Hpre x scx (or_introl eq_refl)) as [E1 E2]. rewrite E1, E2.
    apply IH. intros y scy Hy. apply Hpre. now right.
Qed.

(** C2 (amended): for a candidate with no entry under its (key, kind) in
    the lookup table, the semantic hits (at most 3, score at least 0.55) are
    examined in descending score order; if the first hit that is either a
    same-value duplicate with score at least 0.75 or a contradiction is a
    contradiction (and not such a duplicate), the decision is Delete
    targeting it, and executing it removes that record from the warm and
    cold tiers and stores the candidate, so both tiers keep their number of
    records, provided the store's ids are unique and the candidate's id is new. *)
Theorem first_contradiction_swaps chroma_query (s : memory_store H) (tbl : @lookup_table H)
  (cand old : memory_object H) pre sc post (turn : Z) (now : H) :
  table_get (key cand, type cand) tbl = None ->
  semantic_search chroma_query s (embed_text cand) 3 SIMILARITY_FOR_CONFLICT =
    pre ++ (old, sc) :: post ->
  (forall x scx, In (x, scx) pre ->
     (num_leb SIMILARITY_FOR_DUPLICATE scx && values_are_same (value cand) (value x)) = false /\
     (num_leb SIMILARITY_FOR_CONFLICT scx && is_contradiction (value cand) (value x)) = false) ->
  (num_leb SIMILARITY_FOR_DUPLICATE sc && values_are_same (value cand) (value old)) = false ->
  num_leb SIMILARITY_FOR_CONFLICT sc = true ->
  is_contradiction (value cand) (value old) = true ->
  warm_wf (warm s) -> NoDup (map memory_id (cold s)) ->
  In (memory_id old) (map memory_id (cold s)) -> memory_id old <> ""%string ->
  ~ In (memory_id cand) (map fst (warm s)) -> ~ In (memory_id cand) (map memory_id (cold s)) ->
  decide chroma_query s cand tbl = CuratorDecision H DELETE cand (Some (memory_id old)) /\
  let s' := execute (decide chroma_query s cand tbl) turn now s in
  warm_get_by_id (memory_id old) (warm s') = None /\
  cold_get_by_id (memory_id old) (cold s') = None /\
  warm_get_by_id (memory_id cand) (warm s') = Some cand /\ In cand (cold s') /\
  length (warm s') = length (warm s) /\ length (cold s') = length (cold s).
Proof.
  intros Htbl Hsim Hpre Hdup Hconf Hcon Hwf Hcnd Hcin Hne Hnw Hnc.
  assert (Hold : In old (warm_get_all (warm s))).
  { unfold semantic_search in Hsim.
    apply (warm_search_in chroma_query (warm s) (embed_text cand) 3 SIMILARITY_FOR_CONFLICT old sc).
    rewrite Hsim. apply in_or_app. right. now left. }
  pose proof (warm_wf_key _ _ Hwf Hold) as Hkey.
  assert (Hneq : memory_id old <> memory_id cand) by (intros E; apply Hnw; rewrite <- E; exact Hkey).
  assert (Hdec : decide chroma_query s cand tbl = CuratorDecision H DELETE cand (Some (memory_id old))).
  { unfold decide. rewrite Htbl, Hsim. now apply scan_similar_delete. }
  split; [exact Hdec|]. cbv zeta. rewrite Hdec.
  unfold execute. cbn [operation target_id candidate].
  replace (target_truthy (Some (memory_id old))) with true
    by (unfold target_truthy; now rewrite (proj2 (String.eqb_neq _ _) Hne)).
  unfold store_add, store_delete, warm_upsert, warm_remove, warm_get_by_id. cbn [warm cold].
  assert (Hnc' : ~ In (memory_id cand) (map memory_id (cold_delete (memory_id old) (cold s))))
    by (intros Hin; apply Hnc; exact (cold_delete_ids _ _ _ Hin)).
  assert (Hnw' : ~ In (memory_id cand) (map fst (dict_pop (memory_id old) (warm s))))
    by (intros Hin; apply Hnw; exact (dict_pop_keys _ _ _ Hin)).
  rewrite (cold_upsert_new cand _ Hnc').
  split; [rewrite dict_get_set_other by exact Hneq; exact (dict_get_pop_nodup _ _ (proj1 Hwf))|].
  split; [exact (cold_find_deleted _ _ _ Hneq)|].
  split; [apply dict_get_set_same|].
  split; [apply in_or_app; right; now left|].
  split.
  - rewrite (dict_set_length_new _ _ _ Hnw'). exact (dict_pop_length _ _ Hkey).
  - rewrite length_app. simpl. rewrite <- (cold_delete_length _ _ Hcnd Hcin). lia.
Qed.

End Swap.

Lemma first_contradiction_swaps_witness :
  decide near_all store_call rec_callback (build_table store_call) =
    CuratorDecision float DELETE rec_callback (Some (memory_id rec_call)) /\
  let s' := execute (decide near_all store_call rec_callback (build_table store_call))
              3 0%float store_call in
  warm_get_by_id (memory_id rec_call) (warm s') = None /\
  cold_get_by_id (memory_id rec_call) (cold s') = None /\
  warm_get_by_id (memory_id rec_callback) (warm s') = Some rec_callback /\
  In rec_callback (cold s') /\
  length (warm s') = length (warm store_call) /\ length (cold s') = length (cold store_call).
Proof.
  apply (first_contradiction_swaps near_all store_call (build_table store_call)
           rec_callback rec_call [] callback_score []).
  - vm_compute. reflexivity.
  - vm_compute. reflexivity.
  - intros x scx [].
  - vm_compute. reflexivity.
  - vm_compute. reflexivity.
  - vm_compute. reflexivity.
  - split; vm_compute; repeat constructor; intros [].
  - vm_compute. repeat constructor. intros [].
  - vm_compute. now left.
  - vm_compute. discriminate.
  - vm_compute. intros [E|[]]. discriminate.
  - vm_compute. intros [E|[]]. discriminate.
Defined.

(** ** Engine reset *)

(** C8 (failing input): resetting an engine whose database path is a file
    keeps that path, zeroes the turn counter and empties the history, but
    the new store re-opens the same SQLite file and reloads its rows into
    the warm cache, so the remembered record is still active after reset. *)
Theorem reset_on_file_keeps_memories :
  let e' := engine_reset disk_after_session engine_on_file in
  e_db_path e' = "mnemosyne.db"%string /\ e_turn_number e' = 0%Z /\ e_history e' = [] /\
  get_all_active (e_store e') = [rec_name] /\ cold (e_store e') = [rec_name].
Proof. vm_compute. repeat split. Qed.

(* ================================================================== *)
(** * Further properties of the code *)

(** ** Ids across the tiers *)

Section IdInvariant.
Context {H : Type} `{Num H}.

Lemma nodup_snoc {A : Type} (l : list A) (x : A) :
  NoDup l -> ~ In x l -> NoDup (l ++ [x]).
Proof.
  induction l as [|y l IH]; simpl; intros Hnd Hx; [repeat constructor; auto|].
  apply NoDup_cons_iff in Hnd as [Hy Hnd]. constructor.
  - intros Hin. apply in_app_or in Hin as [Hin|[E|[]]]; [exact (Hy Hin)|].
    subst. apply Hx. now left.
  - apply IH; [exact Hnd|]. intros Hin. apply Hx. now right.
Qed.

Lemma dict_set_keys_in {V : Type} (k : string) (v : V) (d : list (string * V)) :
  In k (map fst d) -> map fst (dict_set k v d) = map fst d.
Proof.
  induction d as [|[k0 v0] d IH]; simpl; [intros []|].
  destruct (String.eqb k k0) eqn:E; simpl.
  - apply String.eqb_eq in E. now subst.
  - intros [E'|Hin]; [subst; rewrite String.eqb_refl in E; discriminate|].
    now rewrite (IH Hin).
Qed.

Lemma dict_set_keys_new {V : Type} (k : string) (v : V) (d : list (string * V)) :
  ~ In k (map fst d) -> map fst (dict_set k v d) = map fst d ++ [k].
Proof.
  induction d as [|[k0 v0] d IH]; simpl; intros Hn; [reflexivity|].
  destruct (String.eqb k k0) eqn:E.
  - apply String.eqb_eq in E. subst. exfalso. apply Hn. now left.
  - simpl. f_equal. apply IH. intros Hin. apply Hn. now right.
Qed.

Lemma dict_pop_sub {V : Type} (k : string) (x : string * V) (d : list (string * V)) :
  In x (dict_pop k d) -> In x d.
Proof.
  induction d as [|[k0 v0] d IH]; simpl; [auto|].
  destruct (String.eqb k k0); simpl; [auto|]. intros [E|Hin]; auto.
Qed.

Lemma dict_pop_nodup {V : Type} (k : string) (d : list (string * V)) :
  NoDup (map fst d) -> NoDup (map fst (dict_pop k d)).
Proof.
  induction d as [|[k0 v0] d IH]; simpl; intros Hnd; [constructor|].
  apply NoDup_cons_iff in Hnd as [Hk Hnd].
  destruct (String.eqb k k0); simpl; [exact Hnd|].
  constructor; [|exact (IH Hnd)].
  intros Hin. apply Hk. apply in_map_iff in Hin as [x [Ex Hx]].
  apply (dict_pop_sub k) in Hx. rewrite <- Ex. exact (in_map fst _ _ Hx).
Qed.

Lemma dict_pop_key_ne {V : Type} (k k' : string) (d : list (string * V)) :
  NoDup (map fst d) -> In k' (map fst (dict_pop k d)) -> k' <> k.
Proof.
  induction d as [|[k0 v0] d IH]; simpl; intros Hnd; [intros []|].
  apply NoDup_cons_iff in Hnd as [Hk Hnd].
  destruct (String.eqb k k0) eqn:E.
  - apply String.eqb_eq in E. subst k0. intros Hin E'. subst. exact (Hk Hin).
  - simpl. intros [E'|Hin]; [|exact (IH Hnd Hin)].
    subst. intros E''. subst. rewrite String.eqb_refl in E. discriminate.
Qed.

Lemma warm_wf_upsert (m : memory_object H) (w : warm_tier H) :
  warm_wf w -> warm_wf (warm_upsert m w).
Proof.
  intros [Hnd Hkey]. unfold warm_upsert. split.
  - destruct (in_dec string_dec (memory_id m) (map fst w)) as [Hin|Hn].
    + now rewrite dict_set_keys_in.
    + rewrite dict_set_keys_new by exact Hn. now apply nodup_snoc.
  - rewrite Forall_forall in *. intros [k v] Hx.
    apply dict_set_in in Hx as [E|Hx]; [injection E as -> ->; reflexivity|exact (Hkey _ Hx)].
Qed.

Lemma warm_upsert_keys (m : memory_object H) (w : warm_tier H) x :
  In x (map fst (warm_upsert m w)) -> In x (map fst w) \/ x = memory_id m.
Proof.
  unfold warm_upsert. intros Hx. apply in_map_iff in Hx as [[k v] [Ek Hin]].
  simpl in Ek. subst x. apply dict_set_in in Hin as [E|Hin].
  - injection E as -> _. now right.
  - left. exact (in_map fst _ _ Hin).
Qed.

Lemma warm_wf_pop (k : string) (w : warm_tier H) :
  warm_wf w -> warm_wf (dict_pop k w).
Proof.
  intros [Hnd Hkey]. split; [now apply dict_pop_nodup|].
  rewrite Forall_forall in *. intros x Hx. exact (Hkey x (dict_pop_sub _ _ _ Hx)).
Qed.

Lemma cold_upsert_ids_in (m : memory_object H) (c : cold_tier H) :
  In (memory_id m) (map memory_id c) -> map memory_id (cold_upsert m c) = map memory_id c.
Proof.
  induction c as [|row c IH]; simpl; [intros []|].
  destruct (String.eqb (memory_id m) (memory_id row)) eqn:E; simpl; [reflexivity|].
  intros [E'|Hin]; [rewrite E', String.eqb_refl in E; discriminate|].
  now rewrite (IH Hin).
Qed.

Lemma cold_upsert_nodup (m : memory_object H) (c : cold_tier H) :
  NoDup (map memory_id c) -> NoDup (map memory_id (cold_upsert m c)).
Proof.
  intros Hnd. destruct (in_dec string_dec (memory_id m) (map memory_id c)) as [Hin|Hn].
  - now rewrite cold_upsert_ids_in.
  - rewrite cold_upsert_new, map_app by exact Hn. now apply nodup_snoc.
Qed.

Lemma cold_upsert_ids_incl (m : memory_object H) (c : cold_tier H) x :
  In x (map memory_id c) \/ x = memory_id m -> In x (map memory_id (cold_upsert m c)).
Proof.
  destruct (in_dec string_dec (memory_id m) (map memory_id c)) as [Hin|Hn].
  - rewrite cold_upsert_ids_in by exact Hin. intros [Hx| ->]; assumption.
  - rewrite cold_upsert_new, map_app by exact Hn. intros [Hx| ->]; apply in_or_app; [now left|].
    right. now left.
Qed.

Lemma cold_delete_nodup (k : string) (c : cold_tier H) :
  NoDup (map memory_id c) -> NoDup (map memory_id (cold_delete k c)).
Proof.
  unfold cold_delete. induction c as [|row c IH]; simpl; intros Hnd; [constructor|].
  apply NoDup_cons_iff in Hnd as [Hr Hnd].
  destruct (negb (String.eqb k (memory_id row))); simpl; [|exact (IH Hnd)].
  constructor; [|exact (IH Hnd)].
  intros Hin. apply Hr. exact (cold_delete_ids k _ c Hin).
Qed.

Lemma cold_delete_ids_keep (k x : string) (c : cold_tier H) :
  In x (map memory_id c) -> x <> k -> In x (map memory_id (cold_delete k c)).
Proof.
  unfold cold_delete. intros Hx Hne. apply in_map_iff in Hx as [r [<- Hr]].
  apply in_map. apply filter_In. split; [exact Hr|].
  rewrite (proj2 (String.eqb_neq _ _) (not_eq_sym Hne)). reflexivity.
Qed.

Lemma ids_ok_upsert (p : string) (h : list (memory_object H)) (m : memory_object H)
  (s : memory_store H) :
  store_ids_ok s ->
  store_ids_ok (MemoryStore H p h (warm_upsert m (warm s)) (cold_upsert m (cold s))).
Proof.
  intros (Hw & Hc & Hi). split; [|split]; cbn [warm cold].
  - now apply warm_wf_upsert.
  - now apply cold_upsert_nodup.
  - intros x Hx. apply cold_upsert_ids_incl.
    destruct (warm_upsert_keys _ _ _ Hx) as [Hx'|Hx']; [left; exact (Hi _ Hx')|now right].
Qed.

Lemma ids_ok_remove (p : string) (h : list (memory_object H)) (k : string)
  (s : memory_store H) :
  store_ids_ok s ->
  store_ids_ok (MemoryStore H p h (dict_pop k (warm s)) (cold_delete k (cold s))).
Proof.
  intros (Hw & Hc & Hi). split; [|split]; cbn [warm cold].
  - now apply warm_wf_pop.
  - now apply cold_delete_nodup.
  - intros x Hx. apply cold_delete_ids_keep.
    + apply Hi. apply in_map_iff in Hx as [kv [<- Hkv]].
      exact (in_map fst _ _ (dict_pop_sub _ _ _ Hkv)).
    + exact (dict_pop_key_ne _ _ _ (proj1 Hw) Hx).
Qed.

Lemma ids_ok_add (m : memory_object H) (s : memory_store H) :
  store_ids_ok s -> store_ids_ok (store_add m s).
Proof. apply ids_ok_upsert. Qed.

Lemma ids_ok_update id v turn now (s : memory_store H) :
  store_ids_ok s -> store_ids_ok (store_update id v turn now s).
Proof.
  intros Hs. unfold store_update.
  destruct (match warm_get_by_id id (warm s) with Some m => Some m
            | None => cold_get_by_id id (cold s) end); [|exact Hs].
  now apply ids_ok_upsert.
Qed.

Lemma ids_ok_delete id (s : memory_store H) :
  store_ids_ok s -> store_ids_ok (store_delete id s).
Proof. apply ids_ok_remove. Qed.

Lemma ids_ok_recall id turn (s : memory_store H) :
  store_ids_ok s -> store_ids_ok (mark_recalled id turn s).
Proof.
  intros Hs. unfold mark_recalled.
  destruct (warm_get_by_id id (warm s)); [now apply ids_ok_upsert|exact Hs].
Qed.

Lemma ids_ok_decay turn (s : memory_store H) :
  store_ids_ok s -> store_ids_ok (fst (apply_decay turn s)).
Proof.
  intros Hs. unfold apply_decay.
  apply (fold_pres _ _ (fun acc => store_ids_ok (fst acc))); [|exact Hs].
  intros [s1 ev] mem _ Hs1. unfold decay_one. simpl in Hs1.
  destruct (last_recalled_turn mem <? turn)%Z; [|exact Hs1].
  destruct (num_ltb _ HEAT_EVICT_THRESHOLD); [now apply ids_ok_remove|].
  destruct (num_ltb _ DECAYING_BELOW); now apply ids_ok_upsert.
Qed.

Lemma ids_ok_execute (d : curator_decision H) turn now (s : memory_store H) :
  store_ids_ok s -> store_ids_ok (execute d turn now s).
Proof.
  intros Hs. unfold execute.
  destruct (operation d); [now apply ids_ok_add| | |exact Hs].
  - destruct (target_id d) as [id|]; [|now apply ids_ok_add].
    destruct (target_truthy (Some id)); [now apply ids_ok_update|now apply ids_ok_add].
  - apply ids_ok_add.
    destruct (target_id d) as [id|]; [|exact Hs].
    destruct (target_truthy (Some id)); [now apply ids_ok_delete|exact Hs].
Qed.

Lemma ids_ok_process chroma_query cands turn now (s : memory_store H) :
  store_ids_ok s -> store_ids_ok (snd (process chroma_query cands turn now s)).
Proof.
  unfold process. generalize (build_table s). revert s.
  induction cands as [|c rest IH]; intros s t Hs; simpl; [exact Hs|].
  specialize (IH (execute (decide chroma_query s c t) turn now s)
                 (refresh_table (decide chroma_query s c t) t)
                 (ids_ok_execute _ _ _ _ Hs)).
  destruct (process_loop chroma_query rest turn now _ _) as [ds s2]. exact IH.
Qed.

Lemma ids_ok_retrieve chroma_query query turn (s : memory_store H) :
  store_ids_ok s -> store_ids_ok (snd (retrieve chroma_query s query turn)).
Proof.
  intros Hs. unfold retrieve.
  destruct (semantic_step chroma_query s query) as [sel1 n1].
  destruct (structural_step s sel1) as [sel2 n2].
  destruct (apply_budget _ 0) as [fs t]. simpl.
  apply (fold_pres _ _ store_ids_ok); [|exact Hs].
  intros st mem _ Hst. now apply ids_ok_recall.
Qed.

Lemma ids_ok_init (disk : list (string * cold_tier H)) path :
  (forall p rows, dict_get p disk = Some rows -> NoDup (map memory_id rows)) ->
  store_ids_ok (store_init disk path).
Proof.
  intros Hdisk. unfold store_init.
  set (c := if String.eqb path ":memory:" then []
            else match dict_get path disk with Some rows => rows | None => [] end).
  assert (Hc : NoDup (map memory_id c)).
  { unfold c. destruct (String.eqb path ":memory:"); [constructor|].
    destruct (dict_get path disk) as [rows|] eqn:E; [exact (Hdisk _ _ E)|constructor]. }
  assert (G : warm_wf (fold_left (fun w m => warm_upsert m w) (cold_get_all_active c) []) /\
              incl (map fst (fold_left (fun w m => warm_upsert m w) (cold_get_all_active c) []))
                (map memory_id c)).
  { apply (fold_pres _ _ (fun w => warm_wf w /\ incl (map fst w) (map memory_id c))).
    - intros w m Hm [Hw Hi]. split; [now apply warm_wf_upsert|].
      intros x Hx. destruct (warm_upsert_keys _ _ _ Hx) as [Hx'| ->]; [exact (Hi _ Hx')|].
      unfold cold_get_all_active in Hm. apply filter_In in Hm.
      exact (in_map memory_id _ _ (proj1 Hm)).
    - split; [split; constructor|intros x []]. }
  destruct G as [Gw Gi]. split; [exact Gw|split; [exact Hc|exact Gi]].
Qed.

(** X1: Every store a session reaches from a database whose tables have
    unique ids keeps its tiers consistent: the warm cache is a dict with
    each record under its own id, the cold table's ids are unique, and each
    warm record has a cold row. *)
Theorem reachable_store_ids_ok chroma_query (disk : list (string * cold_tier H))
  (s : memory_store H) :
  (forall p rows, dict_get p disk = Some rows -> NoDup (map memory_id rows)) ->
  reachable chroma_query disk s -> store_ids_ok s.
Proof.
  intros Hdisk Hr. induction Hr.
  - now apply ids_ok_init.
  - now apply ids_ok_add.
  - now apply ids_ok_update.
  - now apply ids_ok_delete.
  - now apply ids_ok_recall.
  - now apply ids_ok_decay.
  - now apply ids_ok_process.
  - now apply ids_ok_retrieve.
Qed.

End IdInvariant.

Lemma reachable_store_ids_ok_witness :
  store_ids_ok (snd (process near_all [rec_callback] 3 0%float store_call)).
Proof.
  apply (reachable_store_ids_ok near_all []).
  - intros p rows E. discriminate.
  - apply r_process. apply r_add. apply r_init.
Defined.

(** ** Lookups after writes *)

Section Lookups.
Context {H : Type} `{Num H}.

Lemma cold_get_upsert_same (m : memory_object H) (c : cold_tier H) :
  cold_get_by_id (memory_id m) (cold_upsert m c) =
  Some (match cold_get_by_id (memory_id m) c with None => m | Some row => cold_merge row m end).
Proof.
  unfold cold_get_by_id. induction c as [|row c IH]; simpl.
  - now rewrite String.eqb_refl.
  - destruct (String.eqb (memory_id m) (memory_id row)) eqn:E; simpl.
    + now rewrite E.
    + now rewrite E.
Qed.

Lemma cold_get_upsert_other (k : string) (m : memory_object H) (c : cold_tier H) :
  k <> memory_id m -> cold_get_by_id k (cold_upsert m c) = cold_get_by_id k c.
Proof.
  intros Hne. unfold cold_get_by_id. induction c as [|row c IH]; simpl.
  - now rewrite (proj2 (String.eqb_neq _ _) Hne).
  - destruct (String.eqb (memory_id m) (memory_id row)) eqn:E; simpl.
    + apply String.eqb_eq in E. rewrite <- E.
      now rewrite (proj2 (String.eqb_neq _ _) Hne).
    + destruct (String.eqb k (memory_id row)); [reflexivity|exact IH].
Qed.

Lemma cold_get_delete_same (k : string) (c : cold_tier H) :
  cold_get_by_id k (cold_delete k c) = None.
Proof.
  unfold cold_get_by_id, cold_delete. induction c as [|row c IH]; simpl; [reflexivity|].
  destruct (String.eqb k (memory_id row)) eqn:E; simpl; [exact IH|]. now rewrite E.
Qed.

Lemma cold_get_delete_other (k k' : string) (c : cold_tier H) :
  k' <> k -> cold_get_by_id k' (cold_delete k c) = cold_get_by_id k' c.
Proof.
  intros Hne. unfold cold_get_by_id, cold_delete.
  induction c as [|row c IH]; simpl; [reflexivity|].
  destruct (String.eqb k (memory_id row)) eqn:E; simpl.
  - apply String.eqb_eq in E. rewrite <- E.
    now rewrite (proj2 (String.eqb_neq _ _) Hne).
  - destruct (String.eqb k' (memory_id row)); [reflexivity|exact IH].
Qed.

Lemma dict_get_pop_other {V : Type} (k k' : string) (d : list (string * V)) :
  k' <> k -> dict_get k' (dict_pop k d) = dict_get k' d.
Proof.
  intros Hne. induction d as [|[k0 v0] d IH]; simpl; [reflexivity|].
  destruct (String.eqb k k0) eqn:E; simpl.
  - apply String.eqb_eq in E. subst k0. now rewrite (proj2 (String.eqb_neq _ _) Hne).
  - destruct (String.eqb k' k0); [reflexivity|exact IH].
Qed.

(** X2: [MemoryStore.add] then a lookup by id: the warm cache returns the
    record as added; the cold table returns it as added when its id is new,
    and otherwise the old row with the conflict update applied (value,
    last recall, heat, confidence, status and update time from the new
    record; type, key, source turn, creation time and embed text kept from
    the old row). No other id changes in either tier. *)
Theorem store_add_lookup (m : memory_object H) (s : memory_store H) :
  warm_get_by_id (memory_id m) (warm (store_add m s)) = Some m /\
  cold_get_by_id (memory_id m) (cold (store_add m s)) =
    Some (match cold_get_by_id (memory_id m) (cold s) with
          | None => m | Some row => cold_merge row m end) /\
  forall k, k <> memory_id m ->
    warm_get_by_id k (warm (store_add m s)) = warm_get_by_id k (warm s) /\
    cold_get_by_id k (cold (store_add m s)) = cold_get_by_id k (cold s).
Proof.
  unfold store_add, warm_upsert, warm_get_by_id. cbn [warm cold].
  split; [apply dict_get_set_same|]. split; [apply cold_get_upsert_same|].
  intros k Hne. split; [now apply dict_get_set_other|now apply cold_get_upsert_other].
Qed.

(** X3: [MemoryStore.update] of a record held by both tiers: the warm record
    gets the new value, the turn as last recall and the embed text
    ["key: new value"]; the cold row gets the new value and the turn, but
    its embed text (and key) stay those of the old row, since the conflict
    update of [ColdTier.upsert] does not write them. *)
Theorem store_update_cold_embed_text id v turn now (m row : memory_object H)
  (s : memory_store H) :
  warm_get_by_id id (warm s) = Some m -> memory_id m = id ->
  cold_get_by_id id (cold s) = Some row ->
  let s' := store_update id v turn now s in
  (exists m', warm_get_by_id id (warm s') = Some m' /\ value m' = v /\
     last_recalled_turn m' = turn /\ embed_text m' = (key m ++ ": " ++ v)%string) /\
  (exists r', cold_get_by_id id (cold s') = Some r' /\ value r' = v /\
     last_recalled_turn r' = turn /\ embed_text r' = embed_text row /\ key r' = key row).
Proof.
  intros Hw Hid Hc s'. unfold s', store_update. rewrite Hw.
  unfold warm_upsert, warm_get_by_id. cbn [warm cold memory_id set_embed_text
    set_last_recalled_turn set_updated_at set_value].
  rewrite Hid. split.
  - eexists. split; [apply dict_get_set_same|]. cbn. auto.
  - pose proof (cold_get_upsert_same
      (set_embed_text (set_last_recalled_turn (set_updated_at (set_value m v) now) turn)
         (key (set_last_recalled_turn (set_updated_at (set_value m v) now) turn) ++ ": " ++ v))
      (cold s)) as E.
    cbn [memory_id set_embed_text set_last_recalled_turn set_updated_at set_value] in E.
    rewrite Hid, Hc in E. rewrite E. eexists. split; [reflexivity|]. cbn. auto.
Qed.

(** X4: [MemoryStore.delete]: when the warm cache has unique keys, a deleted
    id is found in neither tier afterwards, and every other id is looked
    up as before. *)
Theorem store_delete_lookup id (s : memory_store H) :
  NoDup (map fst (warm s)) ->
  warm_get_by_id id (warm (store_delete id s)) = None /\
  cold_get_by_id id (cold (store_delete id s)) = None /\
  forall k, k <> id ->
    warm_get_by_id k (warm (store_delete id s)) = warm_get_by_id k (warm s) /\
    cold_get_by_id k (cold (store_delete id s)) = cold_get_by_id k (cold s).
Proof.
  intros Hnd. unfold store_delete, warm_remove, warm_get_by_id. cbn [warm cold].
  split; [now apply dict_get_pop_nodup|]. split; [apply cold_get_delete_same|].
  intros k Hne. split; [now apply dict_get_pop_other|now apply cold_get_delete_other].
Qed.

End Lookups.

Lemma store_update_cold_embed_text_witness :
  (exists m', warm_get_by_id "mem_0000name" (warm store_renamed) = Some m' /\
     value m' = "Ravi"%string /\ last_recalled_turn m' = 2%Z /\
     embed_text m' = (key rec_name ++ ": " ++ "Ravi")%string) /\
  (exists r', cold_get_by_id "mem_0000name" (cold store_renamed) = Some r' /\
     value r' = "Ravi"%string /\ last_recalled_turn r' = 2%Z /\
     embed_text r' = embed_text rec_name /\ key r' = key rec_name).
Proof.
  exact (store_update_cold_embed_text "mem_0000name" "Ravi" 2 0.5%float rec_name rec_name
           (store_add rec_name empty_store) ltac:(vm_compute; reflexivity) eq_refl
           ltac:(vm_compute; reflexivity)).
Defined.

Lemma store_delete_lookup_witness :
  warm_get_by_id "mem_0000call" (warm (store_delete "mem_0000call" store_call)) = None /\
  cold_get_by_id "mem_0000call" (cold (store_delete "mem_0000call" store_call)) = None /\
  forall k, k <> "mem_0000call"%string ->
    warm_get_by_id k (warm (store_delete "mem_0000call" store_call)) =
      warm_get_by_id k (warm store_call) /\
    cold_get_by_id k (cold (store_delete "mem_0000call" store_call)) =
      cold_get_by_id k (cold store_call).
Proof.
  apply store_delete_lookup. vm_compute. repeat constructor. intros [].
Defined.

(** ** The decay sweep *)

Section DecaySweep.
Context {H : Type} `{Num H}.

Lemma filter_all_true {A : Type} (f : A -> bool) (l : list A) :
  (forall x, In x l -> f x = true) -> filter f l = l.
Proof.
  induction l as [|x l IH]; simpl; intros Hf; [reflexivity|].
  rewrite (Hf x (or_introl eq_refl)). f_equal. apply IH. intros y Hy. apply Hf. now right.
Qed.

Lemma dict_pop_keys_filter {V : Type} (k : string) (d : list (string * V)) :
  NoDup (map fst d) ->
  map fst (dict_pop k d) = filter (fun x => negb (String.eqb k x)) (map fst d).
Proof.
  induction d as [|[k0 v0] d IH]; simpl; intros Hnd; [reflexivity|].
  apply NoDup_cons_iff in Hnd as [Hk Hnd].
  destruct (String.eqb k k0) eqn:E; simpl.
  - apply String.eqb_eq in E. subst k0. symmetry. apply filter_all_true.
    intros x Hx. destruct (String.eqb k x) eqn:E'; [|reflexivity].
    apply String.eqb_eq in E'. subst. contradiction.
  - f_equal. exact (IH Hnd).
Qed.

Lemma mem_str_snoc (x k : string) (ev : list string) :
  mem_str x (ev ++ [k]) = mem_str x ev || String.eqb x k.
Proof. unfold mem_str. rewrite existsb_app. simpl. now rewrite orb_false_r. Qed.

Lemma mem_str_In (x : string) (l : list string) : mem_str x l = true <-> In x l.
Proof.
  unfold mem_str. rewrite existsb_exists. split.
  - intros [y [Hy E]]. apply String.eqb_eq in E. now subst.
  - intros Hx. exists x. split; [exact Hx|apply String.eqb_refl].
Qed.

Lemma cold_get_delete_none (k k' : string) (c : cold_tier H) :
  cold_get_by_id k' c = None -> cold_get_by_id k' (cold_delete k c) = None.
Proof.
  intros E. destruct (string_dec k' k) as [->|Hne]; [apply cold_get_delete_same|].
  now rewrite cold_get_delete_other.
Qed.

Lemma nodup_app_disjoint {A : Type} (l1 l2 : list A) (x : A) :
  NoDup (l1 ++ l2) -> In x l1 -> In x l2 -> False.
Proof.
  induction l1 as [|y l1 IH]; simpl; intros Hnd Hx1 Hx2; [exact Hx1|].
  apply NoDup_cons_iff in Hnd as [Hy Hnd]. destruct Hx1 as [<-|Hx1]; [|exact (IH Hnd Hx1 Hx2)].
  apply Hy. apply in_or_app. now right.
Qed.

Lemma filter_twice {A : Type} (f g : A -> bool) (l : list A) :
  filter f (filter g l) = filter (fun x => g x && f x) l.
Proof.
  induction l as [|x l IH]; simpl; [reflexivity|].
  destruct (g x); simpl; [destruct (f x); simpl; now rewrite IH|exact IH].
Qed.

Definition decay_inv (w0 : warm_tier H) (done : list (string * memory_object H))
  (acc : memory_store H * list string) : Prop :=
  map fst (warm (fst acc)) = filter (fun k => negb (mem_str k (snd acc))) (map fst w0) /\
  incl (snd acc) (map fst done) /\ NoDup (snd acc) /\
  forall k, In k (snd acc) -> cold_get_by_id k (cold (fst acc)) = None.

Lemma decay_fold_inv turn (w0 : warm_tier H) rest :
  forall done acc,
  w0 = done ++ rest -> NoDup (map fst w0) -> Forall (fun kv => fst kv = memory_id (snd kv)) w0 ->
  decay_inv w0 done acc ->
  decay_inv w0 w0 (fold_left (decay_one turn) (map snd rest) acc).
Proof.
  induction rest as [|[k mem] rest IH]; intros done acc Ew Hnd Hkey Hinv.
  - simpl. rewrite app_nil_r in Ew. now subst.
  - simpl. apply (IH (done ++ [(k, mem)])); [now rewrite <- app_assoc|exact Hnd|exact Hkey|].
    rewrite Forall_forall in Hkey.
    assert (Hk : k = memory_id mem).
    { apply (Hkey (k, mem)). rewrite Ew. apply in_or_app. right. now left. }
    assert (Hk0 : In k (map fst w0)).
    { rewrite Ew, map_app. apply in_or_app. right. now left. }
    assert (Hnev : ~ In k (snd acc)).
    { intros Hin. destruct Hinv as (_ & Hi & _). apply Hi in Hin.
      rewrite Ew, map_app in Hnd. apply (nodup_app_disjoint _ _ k Hnd Hin). now left. }
    destruct acc as [s1 ev]. destruct Hinv as (Hkeys & Hi & Hev & Hc). cbn [fst snd] in *.
    assert (Hcur : In k (map fst (warm s1))).
    { rewrite Hkeys. apply filter_In. split; [exact Hk0|].
      destruct (mem_str k ev) eqn:E; [apply mem_str_In in E; contradiction|reflexivity]. }
    assert (Hndcur : NoDup (map fst (warm s1))).
    { rewrite Hkeys. now apply NoDup_filter. }
    assert (Hincl : incl ev (map fst (done ++ [(k, mem)]))).
    { intros x Hx. rewrite map_app. apply in_or_app. left. exact (Hi x Hx). }
    unfold decay_one. cbn [memory_id set_heat heat].
    destruct (last_recalled_turn mem <? turn)%Z.
    + destruct (num_ltb (decayed_heat (heat mem)) HEAT_EVICT_THRESHOLD).
      * unfold decay_inv. cbn [fst snd warm cold]. rewrite <- Hk. split; [|split; [|split]].
        -- unfold warm_remove. rewrite dict_pop_keys_filter by exact Hndcur.
           rewrite Hkeys, filter_twice. apply filter_ext. intros x.
           rewrite mem_str_snoc. rewrite (String.eqb_sym k x).
           destruct (mem_str x ev), (String.eqb x k); reflexivity.
        -- intros x Hx. apply in_app_or in Hx as [Hx|[<-|[]]]; [exact (Hincl x Hx)|].
           rewrite map_app. apply in_or_app. right. now left.
        -- now apply nodup_snoc.
        -- intros x Hx. apply in_app_or in Hx as [Hx|[<-|[]]].
           ++ apply cold_get_delete_none. exact (Hc x Hx).
           ++ apply cold_get_delete_same.
      * destruct (num_ltb (decayed_heat (heat mem)) DECAYING_BELOW);
          unfold decay_inv; cbn [fst snd warm cold];
          (split; [|split; [exact Hincl|split; [exact Hev|]]]).
        -- unfold warm_upsert. cbn [memory_id set_status set_heat].
           rewrite <- Hk, dict_set_keys_in by exact Hcur. exact Hkeys.
        -- intros x Hx. rewrite cold_get_upsert_other; [exact (Hc x Hx)|].
           cbn. rewrite <- Hk. intros ->. contradiction.
        -- unfold warm_upsert. cbn [memory_id set_status set_heat].
           rewrite <- Hk, dict_set_keys_in by exact Hcur. exact Hkeys.
        -- intros x Hx. rewrite cold_get_upsert_other; [exact (Hc x Hx)|].
           cbn. rewrite <- Hk. intros ->. contradiction.
    + unfold decay_inv. cbn [fst snd]. repeat split; auto.
Qed.

(** X5: [apply_decay] on a warm cache with unique keys, each record under its
    own id: the reported ids are distinct, each was a key of the warm
    cache, and none of them is found in the cold table afterwards; the warm
    cache keeps exactly its other keys, in their order. *)
Theorem apply_decay_reports_removed turn (s : memory_store H) :
  warm_wf (warm s) ->
  let (s', evicted) := apply_decay turn s in
  map fst (warm s') = filter (fun k => negb (mem_str k evicted)) (map fst (warm s)) /\
  NoDup evicted /\ incl evicted (map fst (warm s)) /\
  forall k, In k evicted -> cold_get_by_id k (cold s') = None.
Proof.
  intros [Hnd Hkey].
  pose proof (decay_fold_inv turn (warm s) (warm s) [] (s, []) eq_refl Hnd Hkey) as G.
  unfold apply_decay, warm_get_all.
  destruct (fold_left (decay_one turn) (map snd (warm s)) (s, [])) as [s' ev].
  destruct G as (G1 & G2 & G3 & G4).
  - split; [simpl; symmetry; apply filter_all_true; reflexivity|].
    split; [intros x []|]. split; [constructor|intros k []].
  - cbn [fst snd] in *. auto.
Qed.

(** X6: [apply_decay] at turn [turn] leaves alone a record whose last recall
    is at turn [turn] or later: the warm cache still holds it unchanged, its
    cold row is unchanged, and its id is not reported. *)
Theorem apply_decay_skips_recent turn (s : memory_store H) k (m : memory_object H) :
  warm_wf (warm s) -> warm_get_by_id k (warm s) = Some m ->
  (turn <= last_recalled_turn m)%Z ->
  warm_get_by_id k (warm (fst (apply_decay turn s))) = Some m /\
  cold_get_by_id k (cold (fst (apply_decay turn s))) = cold_get_by_id k (cold s) /\
  ~ In k (snd (apply_decay turn s)).
Proof.
  intros Hwf Hm Ht. unfold apply_decay.
  apply (fold_pres _ _ (fun acc => warm_get_by_id k (warm (fst acc)) = Some m /\
           cold_get_by_id k (cold (fst acc)) = cold_get_by_id k (cold s) /\
           ~ In k (snd acc))); [|now split; [|split; [|intros []]]].
  intros [s1 ev] mem Hmem (Hw1 & Hc1 & Hev). cbn [fst snd] in *.
  destruct (string_dec (memory_id mem) k) as [Ek|Hne].
  - assert (Hkm : k = memory_id m).
    { destruct Hwf as [_ Hkey]. rewrite Forall_forall in Hkey.
      exact (Hkey (k, m) (dict_get_some_in _ _ _ Hm)). }
    assert (mem = m).
    { apply (warm_wf_unique (warm s) mem m Hwf Hmem (dict_get_in _ _ _ Hm)).
      now rewrite Ek. }
    subst mem. unfold decay_one.
    replace (last_recalled_turn m <? turn)%Z with false by lia. auto.
  - unfold decay_one. cbn [memory_id set_heat].
    destruct (last_recalled_turn mem <? turn)%Z; [|auto].
    destruct (num_ltb _ HEAT_EVICT_THRESHOLD); cbn [fst snd warm cold].
    + unfold warm_remove, warm_get_by_id in *.
      rewrite dict_get_pop_other by (intros E; apply Hne; now rewrite E).
      rewrite cold_get_delete_other by (intros E; apply Hne; now rewrite E).
      split; [exact Hw1|split; [exact Hc1|]].
      intros Hin. apply in_app_or in Hin as [Hin|[E|[]]]; [exact (Hev Hin)|].
      apply Hne. now rewrite E.
    + destruct (num_ltb _ DECAYING_BELOW); cbn [fst snd warm cold];
        unfold warm_upsert, warm_get_by_id in *; cbn [memory_id set_status set_heat];
        (rewrite dict_get_set_other by (intros E; apply Hne; now rewrite E));
        (rewrite cold_get_upsert_other by (cbn; intros E; apply Hne; now rewrite E));
        auto.
Qed.

End DecaySweep.

Lemma apply_decay_reports_removed_witness :
  warm_wf (warm store_faint) /\
  let (s', evicted) := apply_decay 5 store_faint in
  map fst (warm s') = filter (fun k => negb (mem_str k evicted)) (map fst (warm store_faint)) /\
  NoDup evicted /\ incl evicted (map fst (warm store_faint)) /\
  forall k, In k evicted -> cold_get_by_id k (cold s') = None.
Proof.
  assert (Hwf : warm_wf (warm store_faint)).
  { split; vm_compute;
    [repeat (apply NoDup_cons; [simpl; intuition discriminate|]); apply NoDup_nil
    |repeat constructor]. }
  split; [exact Hwf|exact (apply_decay_reports_removed 5 store_faint Hwf)].
Defined.

Lemma apply_decay_skips_recent_witness :
  warm_get_by_id "mem_0000call" (warm (fst (apply_decay 1 store_faint))) = Some rec_call /\
  cold_get_by_id "mem_0000call" (cold (fst (apply_decay 1 store_faint))) =
    cold_get_by_id "mem_0000call" (cold store_faint) /\
  ~ In "mem_0000call"%string (snd (apply_decay 1 store_faint)).
Proof.
  apply (apply_decay_skips_recent 1 store_faint "mem_0000call" rec_call).
  - split; vm_compute;
    [repeat (apply NoDup_cons; [simpl; intuition discriminate|]); apply NoDup_nil
    |repeat constructor].
  - vm_compute. reflexivity.
  - vm_compute. discriminate.
Defined.

Section RetrieveShape.
Context {H : Type} `{Num H}.
Variable chroma_query : list (string * string) -> string -> nat -> list (string * H).

Lemma insert_desc_perm {A : Type} (f : A -> H) x l :
  Permutation (insert_desc f x l) (x :: l).
Proof.
  induction l as [|y l IH]; simpl; [reflexivity|].
  destruct (num_ltb (f y) (f x)); [reflexivity|].
  eapply perm_trans; [apply perm_skip, IH|apply perm_swap].
Qed.

Lemma sort_desc_perm {A : Type} (f : A -> H) l :
  Permutation (sort_desc f l) l.
Proof.
  unfold sort_desc.
  assert (G : forall acc, Permutation (fold_left (fun acc x => insert_desc f x acc) l acc)
                                      (l ++ acc)).
  { induction l as [|y l IH]; intros acc; simpl; [reflexivity|].
    eapply perm_trans; [apply IH|].
    eapply perm_trans; [apply Permutation_app_head, insert_desc_perm|].
    apply Permutation_sym, Permutation_middle. }
  pose proof (G []) as G0. rewrite app_nil_r in G0. exact G0.
Qed.

Lemma dict_get_none_notin {V : Type} (k : string) (d : list (string * V)) :
  dict_get k d = None -> ~ In k (map fst d).
Proof.
  induction d as [|[k0 v0] d IH]; simpl; [auto|].
  destruct (String.eqb k k0) eqn:E; [discriminate|].
  intros Hg [E'|Hin]; [subst; rewrite String.eqb_refl in E; discriminate|exact (IH Hg Hin)].
Qed.

(** The [selected] dict stays a well-formed dict whose size is [c] plus the
    hit counter. *)
Definition sel_count (c : nat) (acc : list (string * memory_object H) * nat) : Prop :=
  warm_wf (fst acc) /\ length (fst acc) = c + snd acc.

Lemma select_count c acc mem : sel_count c acc -> sel_count c (select acc mem).
Proof.
  destruct acc as [sel n]. unfold select, sel_count; simpl. intros [Hwf Hlen].
  destruct (dict_get (memory_id mem) sel) eqn:E; simpl; [now split|].
  split; [exact (warm_wf_upsert mem sel Hwf)|].
  rewrite dict_set_length_new; [lia|exact (dict_get_none_notin _ _ E)].
Qed.

Lemma semantic_step_count (s : memory_store H) query :
  sel_count 0 (semantic_step chroma_query s query).
Proof.
  unfold semantic_step. apply (fold_pres _ _ (sel_count 0)).
  - intros acc y _. apply select_count.
  - split; [split; constructor|reflexivity].
Qed.

Lemma structural_step_count (s : memory_store H) sel :
  warm_wf sel -> sel_count (length sel) (structural_step s sel).
Proof.
  intros Hwf. unfold structural_step.
  apply (fold_pres _ _ (sel_count (length sel))); [|split; [exact Hwf|simpl; lia]].
  intros acc t _ Hi. apply (fold_pres _ _ (sel_count (length sel))); [|exact Hi].
  intros acc' mem _ Hi'. destruct (negb _); [now apply select_count|exact Hi'].
Qed.

Lemma retrieve_shape (s : memory_store H) query turn :
  NoDup (map memory_id (memories (fst (retrieve chroma_query s query turn)))) /\
  length (ranked_candidates chroma_query s query turn) =
    semantic_hits (fst (retrieve chroma_query s query turn)) +
    structural_hits (fst (retrieve chroma_query s query turn)).
Proof.
  pose proof (semantic_step_count s query) as Hc1.
  unfold retrieve, ranked_candidates.
  destruct (semantic_step chroma_query s query) as [sel1 n1].
  destruct Hc1 as [Hwf1 Hl1]. simpl in Hwf1, Hl1.
  pose proof (structural_step_count s sel1 Hwf1) as Hc2.
  destruct (structural_step s sel1) as [sel2 n2].
  destruct Hc2 as [[Hnd2 Hkey2] Hl2]. simpl in Hnd2, Hkey2, Hl2.
  pose proof (sort_desc_perm (relevance_score turn) (map snd sel2)) as Hp.
  pose proof (apply_budget_spec (sort_desc (relevance_score turn) (map snd sel2)) 0
                ltac:(unfold MAX_MEMORY_TOKENS; lia)) as Hb.
  destruct (apply_budget _ 0) as [fs t]. simpl.
  destruct Hb as (_ & _ & rest & Hms & _).
  split.
  - assert (Hids : map memory_id (map snd sel2) = map fst sel2).
    { rewrite map_map. apply map_ext_in. rewrite Forall_forall in Hkey2.
      intros kv Hkv. symmetry. exact (Hkey2 kv Hkv). }
    assert (Hall : NoDup (map memory_id (fs ++ rest))).
    { rewrite <- Hms. apply (Permutation_NoDup (Permutation_map memory_id (Permutation_sym Hp))).
      now rewrite Hids. }
    rewrite map_app in Hall. exact (NoDup_app_remove_r _ _ Hall).
  - rewrite (Permutation_length Hp), length_map. lia.
Qed.

(** X7: in every retrieval the returned memories have pairwise distinct ids,
    and the number of ranked candidates is the sum of the semantic and the
    structural hit counts the result reports: a record found by both steps
    is counted, and ranked, once. *)
Theorem retrieve_distinct_and_counted (s : memory_store H) query turn :
  NoDup (map memory_id (memories (fst (retrieve chroma_query s query turn)))) /\
  length (ranked_candidates chroma_query s query turn) =
    semantic_hits (fst (retrieve chroma_query s query turn)) +
    structural_hits (fst (retrieve chroma_query s query turn)).
Proof. exact (retrieve_shape s query turn). Qed.

Lemma runs_sep (p : ascii -> bool) cur l1 c l2 :
  p c = false -> runs p cur (l1 ++ c :: l2) = runs p cur l1 ++ runs p [] l2.
Proof.
  intros Hc. revert cur. induction l1 as [|d l1 IH]; intros cur; simpl.
  - rewrite Hc. destruct cur; reflexivity.
  - destruct (p d); [apply IH|]. destruct cur; [apply IH|]. simpl. f_equal. apply IH.
Qed.

Lemma runs_nonempty (p : ascii -> bool) cur l :
  (cur <> [] \/ exists c, In c l /\ p c = true) -> runs p cur l <> [].
Proof.
  revert cur. induction l as [|d l IH]; intros cur Hc; simpl.
  - destruct Hc as [Hc|[c [[] _]]]. destruct cur; [contradiction|discriminate].
  - destruct (p d) eqn:Ed.
    + apply IH. left. discriminate.
    + destruct cur as [|x cur]; [|discriminate].
      apply IH. destruct Hc as [Hc|[c [[E|Hin] Hpc]]]; [contradiction| |right; exists c; auto].
      subst. rewrite Ed in Hpc. discriminate.
Qed.

Lemma ascii_list_app (a b : string) :
  list_ascii_of_string (a ++ b) = list_ascii_of_string a ++ list_ascii_of_string b.
Proof. induction a as [|c a IH]; simpl; [reflexivity|now rewrite IH]. Qed.

Lemma estimated_tokens_ge_5 (m : memory_object H) : 5 <= estimated_tokens m.
Proof.
  assert (E : list_ascii_of_string (to_prompt_fragment m) =
     ("["%char :: list_ascii_of_string (py_upper (memory_type_value (type m))) ++ ["]"%char]) ++
     " "%char :: (list_ascii_of_string (key m) ++ ":"%char :: " "%char
                  :: list_ascii_of_string (value m))).
  { unfold to_prompt_fragment. rewrite !ascii_list_app. simpl. rewrite <- app_assoc. reflexivity. }
  unfold estimated_tokens, py_split. rewrite length_map, E, runs_sep by reflexivity.
  rewrite length_app.
  pose proof (runs_nonempty (fun c => negb (is_space c)) []
    ("["%char :: list_ascii_of_string (py_upper (memory_type_value (type m))) ++ ["]"%char])
    (or_intror (ex_intro _ "["%char (conj (or_introl eq_refl) eq_refl)))) as R1.
  pose proof (runs_nonempty (fun c => negb (is_space c)) []
    (list_ascii_of_string (key m) ++ ":"%char :: " "%char :: list_ascii_of_string (value m))
    (or_intror (ex_intro _ ":"%char (conj (in_or_app _ _ ":"%char (or_intror (in_eq _ _)))
                                           eq_refl)))) as R2.
  destruct (runs _ [] (_ :: _ ++ _)); [contradiction|].
  destruct (runs _ [] (_ ++ _)); [contradiction|]. simpl. lia.
Qed.

Lemma tokens_of_ge (ms : list (memory_object H)) : 5 * length ms <= tokens_of ms.
Proof. induction ms as [|m ms IH]; simpl; [lia|]. pose proof (estimated_tokens_ge_5 m). lia. Qed.

(** X8: a retrieval returns at most 60 memories: every prompt fragment
    "[TYPE] key: value" has at least two words, so each memory costs at least
    5 of the 300 budget tokens. *)
Theorem retrieve_at_most_60 (s : memory_store H) query turn :
  length (memories (fst (retrieve chroma_query s query turn))) <= 60.
Proof.
  rewrite retrieve_memories.
  pose proof (apply_budget_spec (ranked_candidates chroma_query s query turn) 0
                ltac:(unfold MAX_MEMORY_TOKENS; lia)) as Hb.
  destruct (apply_budget _ 0) as [fs t]. destruct Hb as (Et & Hle & _).
  simpl. pose proof (tokens_of_ge fs). unfold MAX_MEMORY_TOKENS in Hle. lia.
Qed.

End RetrieveShape.

Section Recall.

Lemma recall_heat_le_1 (h : float) :
  (py_min (num_of_Z 1) (num_add h HEAT_RECALL_BOOST) <=? 1)%float = true.
Proof.
  assert (E1 : (num_of_Z 1 : float) = 1%float) by reflexivity.
  unfold py_min. rewrite E1.
  destruct (num_ltb (num_add h HEAT_RECALL_BOOST) 1%float) eqn:E.
  - exact (float_ltb_leb _ _ E).
  - reflexivity.
Qed.

(** A record recalled at [turn]: in both tiers, active and stamped with
    [turn], its heat at most 1 in the warm tier. *)
Definition recalled_in (turn : Z) (k : string) (st : memory_store float) : Prop :=
  (exists r, warm_get_by_id k (warm st) = Some r /\ last_recalled_turn r = turn /\
     status r = ACTIVE /\ (heat r <=? 1)%float = true) /\
  (exists row, cold_get_by_id k (cold st) = Some row /\ last_recalled_turn row = turn /\
     status row = ACTIVE).

Lemma dict_in_keys_get {V : Type} (k : string) (d : list (string * V)) :
  In k (map fst d) -> exists v, dict_get k d = Some v.
Proof.
  induction d as [|[k0 v0] d IH]; simpl; [intros []|].
  destruct (String.eqb k k0) eqn:E; [eexists; reflexivity|].
  intros [E'|Hin]; [subst; rewrite String.eqb_refl in E; discriminate|exact (IH Hin)].
Qed.

Lemma wf_get_id (w : warm_tier float) k r :
  warm_wf w -> warm_get_by_id k w = Some r -> memory_id r = k.
Proof.
  intros [_ Hkey] Hg. apply dict_get_some_in in Hg. rewrite Forall_forall in Hkey.
  exact (eq_sym (Hkey _ Hg)).
Qed.

Lemma mark_recalled_hit k turn (st : memory_store float) :
  warm_wf (warm st) -> In k (map fst (warm st)) ->
  recalled_in turn k (mark_recalled k turn st) /\ warm_wf (warm (mark_recalled k turn st)) /\
  map fst (warm (mark_recalled k turn st)) = map fst (warm st).
Proof.
  intros Hwf Hk. destruct (dict_in_keys_get k (warm st) Hk) as [r Hr].
  pose proof (wf_get_id _ _ _ Hwf Hr) as Ek.
  unfold mark_recalled. unfold warm_get_by_id in Hr |- *. rewrite Hr. cbn zeta.
  set (r3 := set_status (set_last_recalled_turn
               (set_heat r (py_min (num_of_Z 1) (num_add (heat r) HEAT_RECALL_BOOST))) turn)
               ACTIVE).
  assert (Eid : memory_id r3 = k) by exact Ek.
  unfold recalled_in. cbn [warm cold]. split; [split|split].
  - exists r3. unfold warm_get_by_id, warm_upsert. rewrite Eid, dict_get_set_same.
    split; [reflexivity|]. split; [reflexivity|]. split; [reflexivity|].
    apply recall_heat_le_1.
  - rewrite <- Eid, cold_get_upsert_same.
    destruct (cold_get_by_id (memory_id r3) (cold st)) as [row|];
      eexists; (split; [reflexivity|]); split; reflexivity.
  - exact (warm_wf_upsert r3 _ Hwf).
  - unfold warm_upsert. rewrite Eid. exact (dict_set_keys_in _ _ _ Hk).
Qed.

Lemma mark_recalled_other k k' turn (st : memory_store float) :
  warm_wf (warm st) -> k' <> k ->
  warm_get_by_id k (warm (mark_recalled k' turn st)) = warm_get_by_id k (warm st) /\
  cold_get_by_id k (cold (mark_recalled k' turn st)) = cold_get_by_id k (cold st) /\
  warm_wf (warm (mark_recalled k' turn st)) /\
  map fst (warm (mark_recalled k' turn st)) = map fst (warm st).
Proof.
  intros Hwf Hne. unfold mark_recalled.
  destruct (warm_get_by_id k' (warm st)) as [r|] eqn:Hr; [|auto].
  pose proof (wf_get_id _ _ _ Hwf Hr) as Ek. cbn zeta. cbn [warm cold].
  set (r3 := set_status (set_last_recalled_turn
               (set_heat r (py_min (num_of_Z 1) (num_add (heat r) HEAT_RECALL_BOOST))) turn)
               ACTIVE).
  assert (Eid : memory_id r3 = k') by exact Ek.
  assert (Hne' : k <> memory_id r3) by (rewrite Eid; auto).
  split; [|split; [|split]].
  - unfold warm_get_by_id, warm_upsert. exact (dict_get_set_other _ _ _ _ Hne').
  - exact (cold_get_upsert_other _ _ _ Hne').
  - exact (warm_wf_upsert r3 _ Hwf).
  - unfold warm_upsert. rewrite Eid. apply dict_set_keys_in.
    apply dict_get_some_in in Hr. exact (in_map fst _ _ Hr).
Qed.

Lemma recall_fold_keep k turn (fs : list (memory_object float)) (st : memory_store float) :
  warm_wf (warm st) -> ~ In k (map memory_id fs) -> recalled_in turn k st ->
  warm_wf (warm (fold_left (fun st mem => mark_recalled (memory_id mem) turn st) fs st)) /\
  recalled_in turn k (fold_left (fun st mem => mark_recalled (memory_id mem) turn st) fs st).
Proof.
  intros Hwf Hk Hr.
  apply (fold_pres _ _ (fun st => warm_wf (warm st) /\ recalled_in turn k st)); [|auto].
  intros acc y Hy [Hwa Hra].
  assert (Hne : memory_id y <> k) by (intros E; apply Hk; rewrite <- E; exact (in_map _ _ _ Hy)).
  destruct (mark_recalled_other k (memory_id y) turn acc Hwa Hne) as (Ew & Ec & Hw' & _).
  split; [exact Hw'|]. unfold recalled_in. rewrite Ew, Ec. exact Hra.
Qed.

Lemma recall_fold_all turn (fs : list (memory_object float)) (st : memory_store float) :
  warm_wf (warm st) -> NoDup (map memory_id fs) ->
  (forall m, In m fs -> In (memory_id m) (map fst (warm st))) ->
  warm_wf (warm (fold_left (fun st mem => mark_recalled (memory_id mem) turn st) fs st)) /\
  forall m, In m fs ->
    recalled_in turn (memory_id m)
      (fold_left (fun st mem => mark_recalled (memory_id mem) turn st) fs st).
Proof.
  revert st. induction fs as [|x fs IH]; intros st Hwf Hnd Hkeys; simpl.
  - split; [exact Hwf|intros m []].
  - apply NoDup_cons_iff in Hnd as [Hx Hnd].
    destruct (mark_recalled_hit (memory_id x) turn st Hwf (Hkeys x (in_eq _ _)))
      as (Hr1 & Hw1 & Hk1).
    assert (Hkeys1 : forall m, In m fs ->
              In (memory_id m) (map fst (warm (mark_recalled (memory_id x) turn st)))).
    { intros m Hm. rewrite Hk1. apply Hkeys. now right. }
    destruct (IH _ Hw1 Hnd Hkeys1) as [Hw2 Hall]. split; [exact Hw2|].
    intros m [<-|Hm]; [|exact (Hall m Hm)].
    exact (proj2 (recall_fold_keep _ turn fs _ Hw1 Hx Hr1)).
Qed.

Lemma retrieve_state chroma_query (s : memory_store float) query turn :
  snd (retrieve chroma_query s query turn) =
  fold_left (fun st mem => mark_recalled (memory_id mem) turn st)
    (memories (fst (retrieve chroma_query s query turn))) s.
Proof.
  unfold retrieve.
  destruct (semantic_step chroma_query s query) as [sel1 n1].
  destruct (structural_step s sel1) as [sel2 n2].
  destruct (apply_budget _ 0) as [fs t]. reflexivity.
Qed.

Lemma retrieve_memories_warm chroma_query (s : memory_store float) query turn mem :
  In mem (memories (fst (retrieve chroma_query s query turn))) ->
  In mem (warm_get_all (warm s)).
Proof.
  intros Hm. rewrite retrieve_memories in Hm.
  pose proof (apply_budget_spec (ranked_candidates chroma_query s query turn) 0
                ltac:(unfold MAX_MEMORY_TOKENS; lia)) as Hb.
  destruct (apply_budget _ 0) as [fs t]. destruct Hb as (_ & _ & rest & Hms & _).
  simpl in Hm.
  assert (Hr : In mem (ranked_candidates chroma_query s query turn))
    by (rewrite Hms; apply in_or_app; now left).
  apply ranked_candidates_in, in_map_iff in Hr as [[k v] [Ev Hv]]. simpl in Ev. subst v.
  destruct (structural_step_spec s _ (semantic_step_inv chroma_query s query)) as [Hinv _].
  exact (proj2 (Hinv _ _ Hv)).
Qed.

(** X9: after a retrieval at turn [turn], every returned memory is, in the
    warm and in the cold tier, ACTIVE with last_recalled_turn = turn, and
    its warm heat is at most 1; a decay sweep run at the same turn leaves it
    in both tiers, unchanged, and does not report it as evicted. *)
Theorem retrieve_marks_recalled chroma_query (s : memory_store float) query turn mem :
  warm_wf (warm s) -> In mem (memories (fst (retrieve chroma_query s query turn))) ->
  let s' := snd (retrieve chroma_query s query turn) in
  (exists r, warm_get_by_id (memory_id mem) (warm s') = Some r /\
     last_recalled_turn r = turn /\ status r = ACTIVE /\ (heat r <=? 1)%float = true /\
     warm_get_by_id (memory_id mem) (warm (fst (apply_decay turn s'))) = Some r) /\
  (exists row, cold_get_by_id (memory_id mem) (cold s') = Some row /\
     last_recalled_turn row = turn /\ status row = ACTIVE /\
     cold_get_by_id (memory_id mem) (cold (fst (apply_decay turn s'))) = Some row) /\
  ~ In (memory_id mem) (snd (apply_decay turn s')).
Proof.
  intros Hwf Hm s'.
  assert (Hnd := proj1 (retrieve_shape chroma_query s query turn)).
  assert (Hkeys : forall m, In m (memories (fst (retrieve chroma_query s query turn))) ->
                    In (memory_id m) (map fst (warm s))).
  { intros m Hm'. exact (warm_wf_key _ _ Hwf (retrieve_memories_warm _ _ _ _ _ Hm')). }
  destruct (recall_fold_all turn _ s Hwf Hnd Hkeys) as [Hw' Hall].
  rewrite <- retrieve_state in Hw', Hall. fold s' in Hw', Hall.
  destruct (Hall mem Hm) as [(r & Hr & Ht & Hst & Hh) (row & Hrow & Htr & Hstr)].
  destruct (apply_decay_skips_recent turn s' (memory_id mem) r Hw' Hr ltac:(lia))
    as (Dw & Dc & Dn).
  split; [|split; [|exact Dn]].
  - exists r. repeat split; assumption.
  - exists row. rewrite Dc. repeat split; assumption.
Qed.

End Recall.

Lemma retrieve_marks_recalled_witness :
  warm_wf (warm store_faint) /\
  In rec_faint (memories (fst (retrieve near_all store_faint "pet" 5))) /\
  let s' := snd (retrieve near_all store_faint "pet" 5) in
  (exists r, warm_get_by_id (memory_id rec_faint) (warm s') = Some r /\
     last_recalled_turn r = 5%Z /\ status r = ACTIVE /\ (heat r <=? 1)%float = true /\
     warm_get_by_id (memory_id rec_faint) (warm (fst (apply_decay 5 s'))) = Some r) /\
  (exists row, cold_get_by_id (memory_id rec_faint) (cold s') = Some row /\
     last_recalled_turn row = 5%Z /\ status row = ACTIVE /\
     cold_get_by_id (memory_id rec_faint) (cold (fst (apply_decay 5 s'))) = Some row) /\
  ~ In (memory_id rec_faint) (snd (apply_decay 5 s')).
Proof.
  assert (Hwf : warm_wf (warm store_faint)).
  { split; vm_compute;
      [repeat (apply NoDup_cons; [simpl; intuition discriminate|]); apply NoDup_nil
      |repeat constructor]. }
  assert (Hm : In rec_faint (memories (fst (retrieve near_all store_faint "pet" 5)))).
  { vm_compute. auto. }
  split; [exact Hwf|]. split; [exact Hm|].
  exact (retrieve_marks_recalled near_all store_faint "pet" 5 rec_faint Hwf Hm).
Defined.

Section PromptText.
Context {H : Type} `{Num H}.

Lemma has_newline_app (a b : string) :
  has_newline (a ++ b) = has_newline a || has_newline b.
Proof. induction a as [|c a IH]; simpl; [reflexivity|]. now rewrite IH, orb_assoc. Qed.

Lemma split_newline_app (a rest : string) :
  has_newline a = false -> split_newline (a ++ newline ++ rest) = a :: split_newline rest.
Proof.
  induction a as [|c a IH]; intros Ha; [reflexivity|].
  cbn [has_newline] in Ha. apply orb_false_iff in Ha as [Hc Ha].
  cbn [String.append split_newline]. rewrite Hc, (IH Ha). reflexivity.
Qed.

Lemma split_newline_single (a : string) :
  has_newline a = false -> split_newline a = [a].
Proof.
  induction a as [|c a IH]; intros Ha; [reflexivity|].
  cbn [has_newline] in Ha. apply orb_false_iff in Ha as [Hc Ha].
  cbn [split_newline]. rewrite Hc, (IH Ha). reflexivity.
Qed.

Lemma split_join_lines (ls : list string) :
  ls <> [] -> forallb (fun l => negb (has_newline l)) ls = true ->
  split_newline (join_lines ls) = ls.
Proof.
  induction ls as [|l ls IH]; intros Hne Hf; [contradiction|].
  cbn [forallb] in Hf. apply andb_prop in Hf as [Hl Hf]. apply negb_true_iff in Hl.
  destruct ls as [|l' ls'].
  - exact (split_newline_single l Hl).
  - change (join_lines (l :: l' :: ls')) with (l ++ newline ++ join_lines (l' :: ls'))%string.
    rewrite (split_newline_app _ _ Hl). f_equal. apply IH; [discriminate|exact Hf].
Qed.

Lemma prompt_lines_no_newline (ms : list (memory_object H)) :
  (forall m, In m ms -> has_newline (key m) = false /\ has_newline (value m) = false) ->
  forallb (fun l => negb (has_newline l)) (prompt_block_lines ms) = true.
Proof.
  intros Hkv. apply forallb_forall. intros x Hx.
  unfold prompt_block_lines in Hx. cbv beta zeta in Hx.
  apply in_app_or in Hx as [Hx|Hx]; [destruct Hx as [<-|[]]; reflexivity|].
  apply in_app_or in Hx as [Hx|Hx]; [|destruct Hx as [<-|[]]; reflexivity].
  apply in_flat_map in Hx as (t & Ht & Hx).
  destruct (filter (fun m => memory_type_eqb (type m) t) ms) as [|m0 g] eqn:Eg; [destruct Hx|].
  destruct Hx as [<-|Hx].
  - destruct Ht as [<-|[<-|[<-|[<-|[<-|[]]]]]]; vm_compute; reflexivity.
  - apply in_map_iff in Hx as (m & <- & Hm). rewrite <- Eg in Hm.
    apply filter_In in Hm as [Hm _]. destruct (Hkv m Hm) as [Hk Hv].
    rewrite !has_newline_app, Hk, Hv. reflexivity.
Qed.

Lemma filter_memory_lines (ms : list (memory_object H)) (ts : list memory_type) :
  filter is_memory_line
    (flat_map
       (fun t =>
          match filter (fun m => memory_type_eqb (type m) t) ms with
          | [] => []
          | g => ("  [" ++ py_upper (memory_type_value t) ++ "S]")%string
                 :: map (fun m => ("    " ++ key m ++ ": " ++ value m)%string) g
          end) ts) =
  map memory_line (flat_map (fun t => filter (fun m => memory_type_eqb (type m) t) ms) ts).
Proof.
  assert (Hall : forall g : list (memory_object H),
             filter is_memory_line (map (fun m => ("    " ++ key m ++ ": " ++ value m)%string) g)
             = map memory_line g).
  { induction g as [|m g IH]; [reflexivity|]. cbn [map filter]. rewrite IH. reflexivity. }
  induction ts as [|t ts IH]; [reflexivity|].
  cbn [flat_map]. rewrite filter_app, map_app, IH.
  destruct (filter (fun m => memory_type_eqb (type m) t) ms) as [|m0 g]; [reflexivity|].
  cbn [filter]. rewrite Hall. reflexivity.
Qed.

Lemma by_priority_perm (ms : list (memory_object H)) : Permutation (by_priority ms) ms.
Proof.
  unfold by_priority. induction ms as [|m ms IH]; [reflexivity|].
  cbn [flat_map] in *. cbn [filter].
  destruct (type m); cbn [memory_type_eqb memory_type_value String.eqb Ascii.eqb Bool.eqb andb];
    cbn [app].
  all: repeat first
    [ apply perm_skip
    | eapply perm_trans; [apply Permutation_sym, Permutation_middle|]; apply perm_skip
    | rewrite app_assoc ].
  all: rewrite <- ?app_assoc; exact IH.
Qed.

(** X11: when no memory's key or value contains a newline, the lines of the
    block of a nonempty list of memories ([split("\n")] of the string) are
    the list [_build_prompt_block] joins; the memory lines among them (the
    lines that start with four spaces) are one ["    key: value"] line per
    memory, grouped by type in the priority order constraint, commitment,
    preference, fact, entity, each group in input order; and that grouping
    is a permutation of the input: no memory is dropped or repeated. *)
Theorem prompt_block_memory_lines (ms : list (memory_object H)) :
  ms <> [] ->
  (forall m, In m ms -> has_newline (key m) = false /\ has_newline (value m) = false) ->
  split_newline (build_prompt_block ms) = prompt_block_lines ms /\
  filter is_memory_line (split_newline (build_prompt_block ms)) = map memory_line (by_priority ms) /\
  Permutation (by_priority ms) ms.
Proof.
  intros Hne Hkv.
  assert (Hs : split_newline (build_prompt_block ms) = prompt_block_lines ms).
  { replace (build_prompt_block ms) with (join_lines (prompt_block_lines ms))
      by (destruct ms; [contradiction|reflexivity]).
    apply split_join_lines; [|exact (prompt_lines_no_newline ms Hkv)].
    unfold prompt_block_lines. cbv beta zeta. cbn [app]. discriminate. }
  split; [exact Hs|]. split; [|apply by_priority_perm].
  rewrite Hs. unfold prompt_block_lines, by_priority. cbv beta zeta.
  rewrite !filter_app, filter_memory_lines. cbn [filter].
  change (is_memory_line "<memory_context>") with false.
  change (is_memory_line "</memory_context>") with false.
  cbn [app]. now rewrite app_nil_r.
Qed.

End PromptText.

Lemma prompt_block_memory_lines_witness :
  [rec_call; rec_faint] <> [] /\
  (forall m, In m [rec_call; rec_faint] ->
     has_newline (key m) = false /\ has_newline (value m) = false) /\
  split_newline (build_prompt_block [rec_call; rec_faint]) = prompt_block_lines [rec_call; rec_faint] /\
  filter is_memory_line (split_newline (build_prompt_block [rec_call; rec_faint])) =
    map memory_line (by_priority [rec_call; rec_faint]) /\
  Permutation (by_priority [rec_call; rec_faint]) [rec_call; rec_faint].
Proof.
  assert (Hne : [rec_call; rec_faint] <> []) by discriminate.
  assert (Hkv : forall m, In m [rec_call; rec_faint] ->
                  has_newline (key m) = false /\ has_newline (value m) = false).
  { intros m [<-|[<-|[]]]; split; reflexivity. }
  split; [exact Hne|]. split; [exact Hkv|].
  exact (prompt_block_memory_lines [rec_call; rec_faint] Hne Hkv).
Defined.

Section CuratorShape.
Context {H : Type} `{Num H}.
Variable chroma_query : list (string * string) -> string -> nat -> list (string * H).

Lemma forallb_ext_eq {A : Type} (f g : A -> bool) (l : list A) :
  (forall x, f x = g x) -> forallb f l = forallb g l.
Proof. intros Hfg. induction l as [|x l IH]; simpl; [reflexivity|]. now rewrite Hfg, IH. Qed.

Lemma set_eqb_sym (a b : list string) : set_eqb a b = set_eqb b a.
Proof. unfold set_eqb. apply andb_comm. Qed.

Lemma set_eqb_pair_swap (x y : string) (l : list string) :
  set_eqb [x; y] l = set_eqb [y; x] l.
Proof.
  unfold set_eqb. simpl.
  rewrite (forallb_ext_eq (fun z => mem_str z [x; y]) (fun z => mem_str z [y; x])).
  - destruct (mem_str x l), (mem_str y l); reflexivity.
  - intros z. unfold mem_str. simpl. destruct (String.eqb z x), (String.eqb z y); reflexivity.
Qed.

Lemma pairs_swap (x y : string) (pairs : list (string * string)) :
  existsb (fun '(p, q) => set_eqb [x; y] [p; q]) pairs =
  existsb (fun '(p, q) => set_eqb [y; x] [p; q]) pairs.
Proof.
  induction pairs as [|[p q] pairs IH]; simpl; [reflexivity|].
  now rewrite set_eqb_pair_swap, IH.
Qed.

Lemma inter_len_sym (a b : list string) : inter_len a b = inter_len b a.
Proof.
  unfold inter_len, py_set.
  assert (Hinc : forall u v, incl (filter (fun x => mem_str x v) (nodup string_dec u))
                                  (filter (fun x => mem_str x u) (nodup string_dec v))).
  { intros u v x Hx. apply filter_In in Hx as [Hu Hv].
    apply nodup_In in Hu. apply mem_str_In in Hv.
    apply filter_In. split; [now apply nodup_In|now apply mem_str_In]. }
  apply Nat.le_antisymm; apply NoDup_incl_length; try apply Hinc;
    apply NoDup_filter, NoDup_nodup.
Qed.

Lemma union_len_sym (a b : list string) : union_len a b = union_len b a.
Proof.
  unfold union_len, py_set.
  assert (Hinc : forall u v, incl (nodup string_dec (u ++ v)) (nodup string_dec (v ++ u))).
  { intros u v x Hx. apply nodup_In in Hx. apply nodup_In.
    apply in_app_or in Hx as [Hx|Hx]; apply in_or_app; auto. }
  apply Nat.le_antisymm; apply NoDup_incl_length; try apply Hinc; apply NoDup_nodup.
Qed.

(** X12: [_is_contradiction] is symmetric: swapping the new and the old
    value never changes the verdict (the exempt pairs, the digit check and
    the word-overlap ratio all compare the two values as sets). *)
Theorem is_contradiction_sym (a b : string) :
  is_contradiction a b = is_contradiction b a.
Proof.
  unfold is_contradiction. cbv beta zeta.
  rewrite (pairs_swap (py_strip (py_lower a))).
  destruct (existsb _ NON_CONTRADICTION_PAIRS); [reflexivity|].
  rewrite (set_eqb_sym (findall_digits (py_strip (py_lower a)))).
  rewrite (andb_comm (negb (length (findall_digits (py_strip (py_lower a))) =? 0))).
  rewrite (inter_len_sym (py_split (py_strip (py_lower a)))).
  rewrite (union_len_sym (py_split (py_strip (py_lower a)))).
  reflexivity.
Qed.

Lemma scan_similar_shape (cand : memory_object H) (similar : list (memory_object H * H)) :
  let d := scan_similar cand similar in
  candidate d = cand /\ (operation d = ADD <-> target_id d = None) /\
  operation d <> UPDATE /\
  forall id, target_id d = Some id -> exists e sc, In (e, sc) similar /\ id = memory_id e /\
    ((operation d = NOOP /\ num_leb SIMILARITY_FOR_DUPLICATE sc = true /\
      values_are_same (value cand) (value e) = true) \/
     (operation d = DELETE /\ num_leb SIMILARITY_FOR_CONFLICT sc = true /\
      is_contradiction (value cand) (value e) = true)).
Proof.
  induction similar as [|[e sc] similar IH]; simpl.
  - split; [reflexivity|]. split; [tauto|]. split; [discriminate|discriminate].
  - destruct (num_leb SIMILARITY_FOR_DUPLICATE sc) eqn:Ed;
      destruct (values_are_same (value cand) (value e)) eqn:Ev; simpl.
    1: split; [reflexivity|]; split; [split; discriminate|]; split; [discriminate|];
       intros id E; injection E as <-; exists e, sc; split; [now left|];
       split; [reflexivity|]; left; auto.
    all: destruct (num_leb SIMILARITY_FOR_CONFLICT sc) eqn:Ec;
      destruct (is_contradiction (value cand) (value e)) eqn:Ei; simpl.
    all: try (split; [reflexivity|]; split; [split; discriminate|]; split; [discriminate|];
              intros id E; injection E as <-; exists e, sc; split; [now left|];
              split; [reflexivity|]; right; auto; fail).
    all: destruct IH as (A & B & C & D); split; [exact A|]; split; [exact B|];
      split; [exact C|]; intros id E; destruct (D id E) as (e' & sc' & Hin & Eid & R);
      exists e', sc'; auto.
Qed.

(** X13: the curator's decision for a candidate carries the candidate
    itself, and it has no target exactly when it is ADD.  When the table
    holds an active record of the candidate's key and type, the target is
    that record: NOOP when the values are the same, UPDATE otherwise.
    Otherwise the target is a hit of the semantic search for the candidate
    (a record of the warm cache): a NOOP for a hit whose score reaches
    [SIMILARITY_FOR_DUPLICATE] with the same value, or a DELETE for a hit
    whose score reaches [SIMILARITY_FOR_CONFLICT] whose value the candidate
    contradicts. *)
Theorem decide_target (s : memory_store H) (cand : memory_object H) (tbl : lookup_table) :
  let d := decide chroma_query s cand tbl in
  candidate d = cand /\ (operation d = ADD <-> target_id d = None) /\
  forall id, target_id d = Some id ->
    (exists e, table_get (key cand, type cand) tbl = Some e /\ id = memory_id e /\
       ((operation d = NOOP /\ values_are_same (value cand) (value e) = true) \/
        (operation d = UPDATE /\ values_are_same (value cand) (value e) = false))) \/
    (table_get (key cand, type cand) tbl = None /\
     exists e sc,
       In (e, sc) (semantic_search chroma_query s (embed_text cand) 3 SIMILARITY_FOR_CONFLICT) /\
       In e (warm_get_all (warm s)) /\ id = memory_id e /\
       ((operation d = NOOP /\ num_leb SIMILARITY_FOR_DUPLICATE sc = true /\
         values_are_same (value cand) (value e) = true) \/
        (operation d = DELETE /\ num_leb SIMILARITY_FOR_CONFLICT sc = true /\
         is_contradiction (value cand) (value e) = true))).
Proof.
  unfold decide. destruct (table_get (key cand, type cand) tbl) as [e|] eqn:Et.
  - destruct (values_are_same (value cand) (value e)) eqn:Ev; simpl;
      (split; [reflexivity|]); (split; [split; discriminate|]); intros id E;
      injection E as <-; left; exists e; auto.
  - destruct (scan_similar_shape cand
                (semantic_search chroma_query s (embed_text cand) 3 SIMILARITY_FOR_CONFLICT))
      as (A & B & _ & D).
    split; [exact A|]. split; [exact B|]. intros id E. right.
    split; [reflexivity|].
    destruct (D id E) as (e' & sc & Hin & Eid & R). exists e', sc.
    split; [exact Hin|]. split; [exact (warm_search_in _ _ _ _ _ _ _ Hin)|]. auto.
Qed.

Lemma fold_len_step {A B : Type} (g : list B -> A -> list B) (l : list A) acc :
  (forall acc x, length (g acc x) <= S (length acc)) ->
  length (fold_left g l acc) <= length acc + length l.
Proof.
  intros Hg. revert acc. induction l as [|x l IH]; intros acc; simpl; [lia|].
  specialize (IH (g acc x)). specialize (Hg acc x). lia.
Qed.

(** X14: when the vector index returns at most [n_results] ids, a warm
    search returns at most [min top_k (size of the cache)] hits; each hit is
    a record of the warm cache whose adjusted score reaches the threshold. *)
Theorem warm_search_hits (w : warm_tier H) query top_k threshold :
  (forall docs q n, length (chroma_query docs q n) <= n) ->
  length (warm_search chroma_query w query top_k threshold) <= Nat.min top_k (length w) /\
  forall m sc, In (m, sc) (warm_search chroma_query w query top_k threshold) ->
    In m (warm_get_all w) /\ num_leb threshold sc = true.
Proof.
  intros Hq. split.
  - unfold warm_search. destruct w as [|p w'] eqn:Ew; [simpl; lia|]. rewrite <- Ew.
    rewrite (Permutation_length (sort_desc_perm _ _)).
    etransitivity; [apply fold_len_step|].
    + intros acc [mid d]. destruct (warm_get_by_id mid w); [|lia].
      destruct (num_leb _ _); [|lia]. rewrite length_app. simpl. lia.
    + simpl. apply Hq.
  - intros m sc Hin. split; [exact (warm_search_in _ _ _ _ _ _ _ Hin)|].
    revert Hin. unfold warm_search. destruct w as [|p w'] eqn:Ew; [intros []|].
    rewrite <- Ew. rewrite sort_desc_in. revert m sc.
    apply (fold_pres _ _ (fun hits => forall m sc, In (m, sc) hits -> num_leb threshold sc = true)).
    + intros hits [mid d] _ IHh m sc Hin.
      destruct (warm_get_by_id mid w) as [mem|]; [|exact (IHh m sc Hin)].
      destruct (num_leb threshold _) eqn:Eth; [|exact (IHh m sc Hin)].
      apply in_app_or in Hin as [Hin|[Hin|[]]]; [exact (IHh m sc Hin)|].
      injection Hin as _ <-. exact Eth.
    + intros ? ? [].
Qed.

End CuratorShape.

Lemma warm_search_hits_witness :
  (forall docs q n, length (near_all docs q n) <= n) /\
  length (warm_search near_all (warm store_faint) "pet" 1 RELEVANCE_THRESHOLD)
    <= Nat.min 1 (length (warm store_faint)) /\
  forall m sc, In (m, sc) (warm_search near_all (warm store_faint) "pet" 1 RELEVANCE_THRESHOLD) ->
    In m (warm_get_all (warm store_faint)) /\ num_leb RELEVANCE_THRESHOLD sc = true.
Proof.
  assert (Hq : forall docs q n, length (near_all docs q n) <= n).
  { intros docs q n. unfold near_all. apply firstn_le_length. }
  split; [exact Hq|].
  exact (warm_search_hits near_all (warm store_faint) "pet" 1 RELEVANCE_THRESHOLD Hq).
Defined.
